(** * pyndulum: the pendulum equations of [pendulum_equations.py]

    The module is six pure functions over Python floats (binary64) and two
    constants.  It is embedded twice, each time function by function:

    - [F64] keeps the arithmetic of the code: Rocq's primitive binary64
      floats, whose [+], [*], [/], [sqrt] and comparisons are the IEEE 754
      operations that CPython and NumPy perform.  The two calls into the C
      mathematics library, [np.cos] and the power behind [** 2], have no
      counterpart among the primitives and are parameters of the embedding.
    - [Ideal] reads the expressions of [get_period], [max_height],
      [max_speed] and [calc_energy] over the real numbers: the exact
      arithmetic that the formulas stand for, without rounding, overflow or
      underflow.  It serves the statements that are about exact arithmetic;
      what is said of the code is said of [F64]. *)

From Stdlib Require Import Bool ZArith Floats.
From Stdlib Require Import Reals Lra Lia.

Set Warnings "-inexact-float".

(** ** Binary64 embedding *)

Module F64.

Local Open Scope float_scope.

(** [np.pi], the double nearest to pi ([0x1.921fb54442d18p+1]). *)
Definition np_pi : float := 3.141592653589793.

(** [G = 9.81], acceleration due to gravity (m/s^2). *)
Definition G : float := 9.81.

(** [SECONDS_IN_MINUTE = 60.0]. *)
Definition SECONDS_IN_MINUTE : float := 60.0.

(** [np.sqrt] on a double: the correctly rounded IEEE 754 square root, [nan]
    below zero. *)
Definition np_sqrt (x : float) : float := PrimFloat.sqrt x.

(** [return 2.0 * np.pi * np.sqrt(length / G)] *)
Definition get_period (length : float) : float :=
  2.0 * np_pi * np_sqrt (length / G).

(** [if theta <= np.pi / 1800.0: return True; return False] *)
Definition check_small_angle (theta : float) : bool :=
  if theta <=? np_pi / 1800.0 then true else false.

(** [return SECONDS_IN_MINUTE / get_period(length)] *)
Definition bpm (length : float) : float :=
  SECONDS_IN_MINUTE / get_period length.

Section Libm.

(** The cosine of the C library, reached through [np.cos]. *)
Variable np_cos : float -> float.

(** The power function of the C library, reached through [**] on a NumPy
    double. *)
Variable np_pow : float -> float -> float.

(** [return length * np.cos(theta)] *)
Definition max_height (length theta : float) : float :=
  length * np_cos theta.

(** [return np.sqrt(2.0 * G * max_height(length, theta))] *)
Definition max_speed (length theta : float) : float :=
  np_sqrt (2.0 * G * max_height length theta).

(** [return 0.5 * mass * max_speed(length, theta) ** 2]; the power binds
    tighter than the products. *)
Definition calc_energy (mass theta length : float) : float :=
  0.5 * mass * np_pow (max_speed length theta) 2.0.

End Libm.

(** A stand-in for the library cosine, used to instantiate the parameter:
    the library's values at the three arguments the scenarios of the
    specification use ([0], [np.pi / 2], [np.pi]), and the second-order Taylor
    polynomial elsewhere. *)
Definition cos_sample (x : float) : float :=
  if x =? 0 then 1
  else if x =? np_pi / 2 then 6.123233995736766e-17
  else if x =? np_pi then -1
  else 1 - x * x / 2.

(** A stand-in for the library power at the one exponent the module uses:
    the square, which is NaN on NaN as the library's [pow(x, 2.0)] is. *)
Definition pow_sample (x y : float) : float :=
  if y =? 2 then x * x else nan.

End F64.

(** ** The expressions over the real numbers *)

Module Ideal.

Local Open Scope R_scope.

(** What evaluating an expression comes to in exact arithmetic. *)
Inductive outcome : Type :=
| Num (x : R)           (* a number *)
| NaN                   (* not a number *)
| ZeroDivisionError.    (* the exception of Python's own float division *)

(** A later operation does not recover from [NaN], and a raised exception
    ends the call. *)
Definition bind (o : outcome) (k : R -> outcome) : outcome :=
  match o with
  | Num x => k x
  | NaN => NaN
  | ZeroDivisionError => ZeroDivisionError
  end.

Notation "x <- o ;; k" := (bind o (fun x => k))
  (at level 61, o at next level, right associativity).

(** [np.sqrt]: no real value below zero. *)
Definition np_sqrt (x : R) : outcome :=
  if Rlt_dec x 0 then NaN else Num (sqrt x).

(** [/] between two Python floats raises on a zero divisor. *)
Definition py_div (x y : R) : outcome :=
  if Req_dec_T y 0 then ZeroDivisionError else Num (x / y).

Definition G : R := 9.81.

(** [length / G] divides two Python floats; [np.sqrt] returns a NumPy
    double. *)
Definition get_period (length : R) : outcome :=
  q <- py_div length G ;;
  r <- np_sqrt q ;;
  Num (2 * PI * r).

Definition max_height (length theta : R) : R :=
  length * cos theta.

Definition max_speed (length theta : R) : outcome :=
  np_sqrt (2 * G * max_height length theta).

Definition calc_energy (mass theta length : R) : outcome :=
  v <- max_speed length theta ;;
  Num (0.5 * mass * v ^ 2).

End Ideal.

(** ** Classes of binary64 values *)

Module Spec64.

(** A number whose sign bit is clear: [+0.0], a positive double or [+inf]. *)
Definition sign_clear (x : spec_float) : bool :=
  match x with
  | S754_zero false | S754_infinity false | S754_finite false _ _ => true
  | _ => false
  end.

End Spec64.

(** ** Exact values and where they lie between doubles *)

Module Exact.

(** [2^e] as a real number. *)
Definition pow2 (e : Z) : R := powerRZ 2 e.

(** The real [x] lies in the cell [[m * 2^e, (m + 1) * 2^e)] at the place
    [l]: on its lower end, or strictly inside, below, at or above the
    middle. *)
Definition located (m e : Z) (l : location) (x : R) : Prop :=
  match l with
  | loc_Exact => x = (IZR m * pow2 e)%R
  | loc_Inexact c =>
      (IZR m * pow2 e < x < (IZR m + 1) * pow2 e)%R
      /\ match c with
         | Lt => (2 * x < (2 * IZR m + 1) * pow2 e)%R
         | Eq => (2 * x = (2 * IZR m + 1) * pow2 e)%R
         | Gt => ((2 * IZR m + 1) * pow2 e < 2 * x)%R
         end
  end.

(** The double that rounding returns for the rounded mantissa [M], at most
    [2^53], at the exponent [t] of the format: a mantissa of [2^53] is
    carried into the next exponent, and an exponent beyond the largest gives
    infinity. *)
Definition assemble (M t : Z) : spec_float :=
  if (M =? 0)%Z then S754_zero false
  else if (M <? 2 ^ 53)%Z then
    if (t <=? emax - prec)%Z then S754_finite false (Z.to_pos M) t
    else S754_infinity false
  else
    if (t + 1 <=? emax - prec)%Z
    then S754_finite false (Z.to_pos (M / 2)) (t + 1)
    else S754_infinity false.

End Exact.

(** ** Comparisons of binary64 values *)

Module F64Facts.

Import F64.
Local Open Scope float_scope.

(** Swapping the operands of the specification's comparison swaps its
    answer. *)
Lemma SFcompare_swap (x y : spec_float) :
  SFcompare y x = option_map CompOpp (SFcompare x y).
Proof.
  destruct x as [sx | sx | | sx mx ex], y as [sy | sy | | sy my ey];
    simpl; try reflexivity;
    try (destruct sx; reflexivity);
    try (destruct sy; reflexivity);
    try (destruct sx, sy; reflexivity).
  pose proof (Pos.compare_cont_antisym mx my Eq) as A. simpl in A.
  destruct sx, sy; simpl; try reflexivity;
    rewrite (Z.compare_antisym ex ey);
    destruct (ex ?= ey)%Z; simpl; try reflexivity;
    rewrite <- A; try rewrite CompOpp_involutive; reflexivity.
Qed.

(** [x < y] excludes [y <= x]. *)
Lemma ltb_not_leb (x y : float) :
  (x <? y) = true -> (y <=? x) = false.
Proof.
  rewrite ltb_spec, leb_spec.
  unfold SFltb, SFleb.
  rewrite (SFcompare_swap (Prim2SF x) (Prim2SF y)).
  destruct (SFcompare (Prim2SF x) (Prim2SF y)) as [[ | | ] | ];
    simpl; intros H; try discriminate H; reflexivity.
Qed.

(** A value compares equal to itself unless it is not a number. *)
Lemma SFcompare_refl (s : spec_float) :
  s <> S754_nan -> SFcompare s s = Some Eq.
Proof.
  destruct s as [sg | sg | | sg m e]; simpl; intros H.
  - reflexivity.
  - destruct sg; reflexivity.
  - contradiction H; reflexivity.
  - destruct sg; rewrite Z.compare_refl, Pos.compare_cont_refl; reflexivity.
Qed.

Lemma is_nan_spec (x : float) :
  is_nan x = true <-> Prim2SF x = S754_nan.
Proof.
  unfold is_nan. rewrite eqb_spec. unfold SFeqb. split.
  - intros H. destruct (Prim2SF x) as [sg | sg | | sg m e] eqn:E;
      try reflexivity; exfalso;
      rewrite SFcompare_refl in H by discriminate; discriminate H.
  - intros ->. reflexivity.
Qed.

(** Python's [==] on doubles is the IEEE comparison: a double compares equal
    to itself unless it is not a number.  The identities between results
    below are identities of doubles, which [==] reports except on NaN. *)
Lemma eqb_self (x : float) : (x =? x) = negb (is_nan x).
Proof. unfold is_nan. rewrite negb_involutive. reflexivity. Qed.

(** The threshold of [check_small_angle], [np.pi / 1800.0], is the positive
    double [8048910508974581 * 2^-62 = 0.0017453292519943296]. *)
Lemma threshold_spec :
  Prim2SF (np_pi / 1800.0) = S754_finite false 8048910508974581 (-62).
Proof. vm_compute. reflexivity. Qed.

(** Whatever is at most zero is at most the threshold. *)
Lemma leb_zero_threshold (theta : float) :
  (theta <=? 0) = true -> (theta <=? np_pi / 1800.0) = true.
Proof.
  rewrite !leb_spec, threshold_spec.
  change (Prim2SF 0) with (S754_zero false).
  destruct (Prim2SF theta) as [sg | sg | | sg m e]; simpl;
    try (destruct sg; simpl); intros H; try discriminate H; reflexivity.
Qed.

(** Not-a-number travels through a division by it. *)
Lemma div_nan_r (x y : float) :
  is_nan y = true -> is_nan (x / y) = true.
Proof.
  rewrite !is_nan_spec, div_spec. intros ->.
  unfold SF64div, SFdiv. destruct (Prim2SF x); reflexivity.
Qed.

Lemma mul_nan_r (x y : float) :
  is_nan y = true -> is_nan (x * y) = true.
Proof.
  rewrite !is_nan_spec, mul_spec. intros ->.
  unfold SF64mul, SFmul. destruct (Prim2SF x); reflexivity.
Qed.

Lemma sqrt_nan (x : float) :
  is_nan x = true -> is_nan (np_sqrt x) = true.
Proof.
  unfold np_sqrt. rewrite !is_nan_spec, sqrt_spec. intros ->. reflexivity.
Qed.

Lemma div_nan_l (x y : float) :
  is_nan x = true -> is_nan (x / y) = true.
Proof.
  rewrite !is_nan_spec, div_spec. intros ->. reflexivity.
Qed.

(** A length that is not a number gives a period and a frequency that are
    not numbers: no operation on the way filters it. *)
Lemma get_period_of_nan (length : float) :
  is_nan length = true -> is_nan (get_period length) = true.
Proof.
  intros H. unfold get_period.
  apply mul_nan_r, sqrt_nan, div_nan_l, H.
Qed.

Lemma bpm_of_nan (length : float) :
  is_nan length = true -> is_nan (bpm length) = true.
Proof.
  intros H. unfold bpm. apply div_nan_r, get_period_of_nan, H.
Qed.

End F64Facts.

(** ** The functions over the real numbers, in closed form *)

Module IdealFacts.

Import Ideal.
Local Open Scope R_scope.

Lemma G_pos : 0 < G.
Proof. unfold G. lra. Qed.

Lemma div_G_neg (length : R) : length / G < 0 <-> length < 0.
Proof.
  pose proof G_pos as HG.
  pose proof (Rinv_0_lt_compat G HG) as HI.
  unfold Rdiv. split; intros H; nra.
Qed.

(** [get_period] fails exactly below zero. *)
Lemma get_period_eq (length : R) :
  get_period length =
  if Rlt_dec length 0 then NaN else Num (2 * PI * sqrt (length / G)).
Proof.
  unfold get_period, py_div.
  destruct (Req_dec_T G 0) as [E | _].
  - pose proof G_pos. lra.
  - simpl. unfold np_sqrt.
    destruct (Rlt_dec (length / G) 0) as [H | H], (Rlt_dec length 0) as [K | K];
      try reflexivity; exfalso.
    + apply K, (proj1 (div_G_neg length)), H.
    + apply H, (proj2 (div_G_neg length)), K.
Qed.

(** Squaring [max_speed] gives back what is under its root. *)
Lemma calc_energy_eq (mass theta length : R) :
  calc_energy mass theta length =
  if Rlt_dec (length * cos theta) 0 then NaN
  else Num (mass * G * length * cos theta).
Proof.
  unfold calc_energy, max_speed, np_sqrt, max_height.
  pose proof G_pos as HG.
  destruct (Rlt_dec (2 * G * (length * cos theta)) 0) as [H | H],
           (Rlt_dec (length * cos theta) 0) as [K | K]; simpl.
  - reflexivity.
  - exfalso. nra.
  - exfalso. nra.
  - f_equal. simpl pow. rewrite Rmult_1_r, sqrt_sqrt by nra. lra.
Qed.

End IdealFacts.

(** ** Numeric bounds over the real numbers *)

Module IdealBounds.

Import Ideal.
Local Open Scope R_scope.

(** Pi to five decimals, from the arctangent series of Machin's formula. *)
Lemma PI_5_decimals : 3.14159 < PI < 3.1416.
Proof.
  pose proof (PI_2_3_7_ineq 3) as [L U].
  unfold PI_2_3_7_tg, tg_alt, Ratan_seq in L, U.
  simpl in L, U.
  split; lra.
Qed.

(** The root under the period of a pendulum of one metre. *)
Lemma sqrt_inv_G_bounds : 0.319275 < sqrt (1 / G) < 0.319276.
Proof.
  unfold G. split.
  - rewrite <- (sqrt_square 0.319275) at 1 by lra.
    apply sqrt_lt_1_alt. lra.
  - rewrite <- (sqrt_square 0.319276) at 1 by lra.
    apply sqrt_lt_1_alt. split; lra.
Qed.

Lemma period_one_metre_bounds :
  2.00606 < 2 * PI * sqrt (1 / G) < 2.00608.
Proof.
  pose proof PI_5_decimals as [P1 P2].
  pose proof sqrt_inv_G_bounds as [S1 S2].
  split; nra.
Qed.

End IdealBounds.

(** ** The small-angle test *)

Module SmallAngle.

Import F64Facts.

(** C2, counterexample: the claim's "for every epsilon" fails in binary64.
    [1e-20] is positive, but less than half the spacing [2^-62] of the doubles
    around the threshold, so [np.pi / 1800 + 1e-20] rounds back to the
    threshold and the test answers true. *)
Lemma small_angle_epsilon_absorbed :
  ((0 <? 1e-20) = true
   /\ F64.np_pi / 1800 + 1e-20 = F64.np_pi / 1800
   /\ F64.check_small_angle (F64.np_pi / 1800 + 1e-20) = true)%float.
Proof. repeat split; vm_compute; reflexivity. Qed.

(** C9: the comparison is on the signed angle, so every [theta <= 0] passes
    the test, however large the displacement. *)
Theorem check_small_angle_nonpositive (theta : float) :
  (theta <=? 0)%float = true -> F64.check_small_angle theta = true.
Proof.
  intros H. unfold F64.check_small_angle.
  rewrite (leb_zero_threshold theta H). reflexivity.
Qed.

(** [check_small_angle(-np.pi)] is true. *)
Lemma check_small_angle_neg_pi :
  F64.check_small_angle (- F64.np_pi)%float = true.
Proof.
  apply (check_small_angle_nonpositive (- F64.np_pi)%float).
  vm_compute. reflexivity.
Defined.

End SmallAngle.

(** ** Period and frequency *)

Module Period.

Import IdealFacts IdealBounds.

(** C4, counterexample: in binary64 the period is neither always positive
    nor strictly increasing.  The smallest positive double, [5e-324], divided
    by [9.81] rounds to zero, so its period is [0.0]; and the neighbouring
    lengths [1.0] and [1.0000000000000002] have the same period, the square
    root halving their relative distance. *)
Lemma period_zero_and_plateau :
  ((0 <? 5e-324) = true
   /\ F64.get_period 5e-324 = 0
   /\ (0 <? F64.get_period 5e-324) = false
   /\ (1 <? 1.0000000000000002) = true
   /\ F64.get_period 1 = F64.get_period 1.0000000000000002
   /\ (F64.get_period 1 <? F64.get_period 1.0000000000000002) = false)%float.
Proof. repeat split; vm_compute; reflexivity. Qed.

(** C5, counterexample: the period of a pendulum of one metre is not 2.0064.
    The code returns the double [2.0060666807106475], more than [0.0003] away
    and [2.0061] to the four decimals printed. *)
Lemma period_one_metre_is_not_2_0064 :
  (F64.get_period 1 = 2.0060666807106475
   /\ (abs (F64.get_period 1 - 2.0064) <=? 0.0003) = false)%float.
Proof. split; vm_compute; reflexivity. Qed.

(** C5, amended: [get_period length] is [2 pi sqrt (length / G)] with
    [G = 9.81], and the period of one metre is [2.0061] to four decimals:
    the double [2.0060666807106475] in binary64, a real number between
    [2.00606] and [2.00608] in exact arithmetic. *)
Theorem get_period_spec :
  (forall length : float,
      F64.get_period length
      = (2 * F64.np_pi * F64.np_sqrt (length / 9.81))%float) /\
  F64.get_period 1%float = 2.0060666807106475%float /\
  (abs (F64.get_period 1 - 2.0061) <=? 0.00005)%float = true /\
  (forall length : R,
      Ideal.get_period length
      = Ideal.bind (Ideal.py_div length 9.81)
          (fun q => Ideal.bind (Ideal.np_sqrt q)
                      (fun r => Ideal.Num (2 * PI * r)))) /\
  (forall length : R,
      (0 <= length)%R ->
      Ideal.get_period length
      = Ideal.Num (2 * PI * sqrt (length / 9.81))) /\
  (exists p, Ideal.get_period 1 = Ideal.Num p /\ (2.00606 < p < 2.00608)%R).
Proof.
  repeat apply conj.
  - intros length. reflexivity.
  - vm_compute. reflexivity.
  - vm_compute. reflexivity.
  - intros length. reflexivity.
  - intros length H. rewrite get_period_eq.
    destruct (Rlt_dec length 0); [lra | reflexivity].
  - exists (2 * PI * sqrt (1 / Ideal.G))%R. split.
    + rewrite get_period_eq.
      destruct (Rlt_dec 1 0); [lra | reflexivity].
    + exact period_one_metre_bounds.
Qed.

(** The amended claim at a length of four metres. *)
Lemma get_period_spec_witness :
  Ideal.get_period 4 = Ideal.Num (2 * PI * sqrt (4 / 9.81)).
Proof.
  destruct get_period_spec as (_ & _ & _ & _ & H & _).
  apply (H 4%R). lra.
Defined.

End Period.

(** ** Height, speed and energy *)

Module Swing.

Import IdealFacts.

(** C6: [max_height length theta] is [length * cos theta]; a pendulum of one
    metre at angle zero has height one, the cosine of zero being one. *)
Theorem max_height_spec :
  (forall (np_cos : float -> float) (length theta : float),
      F64.max_height np_cos length theta = (length * np_cos theta)%float) /\
  (forall np_cos : float -> float,
      np_cos 0%float = 1%float ->
      F64.max_height np_cos 1 0 = 1%float) /\
  (forall length theta : R,
      Ideal.max_height length theta = (length * cos theta)%R) /\
  Ideal.max_height 1 0 = 1%R.
Proof.
  repeat apply conj.
  - intros np_cos length theta. reflexivity.
  - intros np_cos H. unfold F64.max_height. rewrite H.
    vm_compute. reflexivity.
  - intros length theta. reflexivity.
  - unfold Ideal.max_height. rewrite cos_0. lra.
Qed.

(** The scenario with the sampled cosine. *)
Lemma max_height_spec_witness :
  F64.max_height F64.cos_sample 1 0 = 1%float.
Proof.
  destruct max_height_spec as (_ & H & _).
  apply (H F64.cos_sample). vm_compute. reflexivity.
Defined.

(** C10: where [length * cos theta] is not negative, the square undoes the
    root of [max_speed], and the energy is
    [mass * 9.81 * length * cos theta]. *)
Theorem calc_energy_closed_form (mass theta length : R) :
  (0 <= length * cos theta)%R ->
  Ideal.calc_energy mass theta length
  = Ideal.Num (mass * 9.81 * length * cos theta).
Proof.
  intros H. rewrite calc_energy_eq.
  destruct (Rlt_dec (length * cos theta) 0); [lra | reflexivity].
Qed.

(** A mass of two kilograms on three metres, released from the vertical. *)
Lemma calc_energy_closed_form_witness :
  Ideal.calc_energy 2 0 3 = Ideal.Num (2 * 9.81 * 3 * cos 0).
Proof.
  apply (calc_energy_closed_form 2 0 3).
  rewrite cos_0. lra.
Defined.

End Swing.

(** ** Signs of rounded binary64 results *)

Module Rounding.

Import Spec64.

(** Shifting a mantissa to the right keeps it from going below zero. *)
Lemma shr_1_nonneg (mrs : shr_record) :
  (0 <= shr_m mrs)%Z -> (0 <= shr_m (shr_1 mrs))%Z.
Proof.
  destruct mrs as [m r s]. simpl.
  destruct m as [ | [p | p | ] | [p | p | ]]; simpl; intros H; lia.
Qed.

Lemma iter_shr_1_nonneg (p : positive) (mrs : shr_record) :
  (0 <= shr_m mrs)%Z -> (0 <= shr_m (SpecFloat.iter_pos shr_1 p mrs))%Z.
Proof.
  revert mrs. induction p as [p IH | p IH | ]; intros mrs H; simpl.
  - apply IH, IH, shr_1_nonneg, H.
  - apply IH, IH, H.
  - apply shr_1_nonneg, H.
Qed.

Lemma shr_fexp_nonneg (m e : Z) (l : location) :
  (0 <= m)%Z -> (0 <= shr_m (fst (shr_fexp prec emax m e l)))%Z.
Proof.
  intros H. unfold shr_fexp, shr.
  assert (K : (0 <= shr_m (shr_record_of_loc m l))%Z).
  { destruct l as [ | [ | | ]]; exact H. }
  destruct (fexp prec emax (Zdigits2 m + e) - e)%Z; simpl;
    try exact K.
  apply iter_shr_1_nonneg, K.
Qed.

Lemma round_nearest_even_nonneg (m : Z) (l : location) :
  (0 <= m)%Z -> (0 <= round_nearest_even m l)%Z.
Proof.
  intros H. destruct l as [ | [ | | ]]; simpl; try lia.
  destruct (Z.even m); lia.
Qed.

(** Rounding a mantissa that is not negative, with a clear sign, gives a
    number with a clear sign: never NaN. *)
Lemma binary_round_aux_sign_clear (m e : Z) (l : location) :
  (0 <= m)%Z ->
  sign_clear (binary_round_aux prec emax false m e l) = true.
Proof.
  intros H. unfold binary_round_aux.
  pose proof (shr_fexp_nonneg m e l H) as H1.
  destruct (shr_fexp prec emax m e l) as [mrs' e']. simpl in H1.
  pose proof (shr_fexp_nonneg _ e' loc_Exact
                (round_nearest_even_nonneg _ (loc_of_shr_record mrs') H1))
    as H2.
  destruct (shr_fexp prec emax _ e' loc_Exact) as [mrs'' e'']. simpl in H2.
  destruct (shr_m mrs'') as [ | q | q].
  - reflexivity.
  - destruct (e'' <=? emax - prec)%Z; reflexivity.
  - lia.
Qed.

(** The integer quotient behind a division of mantissas is not negative. *)
Lemma SFdiv_core_nonneg (mx my : positive) (ex ey : Z) :
  (0 <= fst (fst (SFdiv_core_binary prec emax (Zpos mx) ex (Zpos my) ey)))%Z.
Proof.
  unfold SFdiv_core_binary.
  set (s := (ex - ey - _)%Z).
  set (m' := match s with
             | Zpos _ => Z.shiftl (Zpos mx) s
             | Z0 => Zpos mx
             | Zneg _ => 0%Z
             end).
  assert (Hm : (0 <= m')%Z).
  { unfold m'. destruct s; try lia. apply Z.shiftl_nonneg. lia. }
  pose proof (Z_div_mod m' (Zpos my) eq_refl) as D.
  destruct (Z.div_eucl m' (Zpos my)) as [q r]. simpl.
  destruct D as [E R]. nia.
Qed.

(** Nor is the integer square root behind a square root. *)
Lemma SFsqrt_core_nonneg (m : positive) (e : Z) :
  (0 <= fst (fst (SFsqrt_core_binary prec emax (Zpos m) e)))%Z.
Proof.
  unfold SFsqrt_core_binary.
  set (s := (e - 2 * _)%Z).
  set (m' := match s with
             | Zpos _ => Z.shiftl (Zpos m) s
             | Z0 => Zpos m
             | Zneg _ => 0%Z
             end).
  pose proof (Z.sqrtrem_sqrt m') as Q.
  destruct (Z.sqrtrem m') as [q r]. simpl in *. subst q.
  apply Z.sqrt_nonneg.
Qed.

(** Dividing a sign-clear number by a positive finite double. *)
Lemma SFdiv_sign_clear_l (x : spec_float) (m : positive) (e : Z) :
  sign_clear x = true ->
  sign_clear (SF64div x (S754_finite false m e)) = true.
Proof.
  unfold SF64div, SFdiv.
  destruct x as [[ | ] | [ | ] | | [ | ] mx ex]; simpl; intros H;
    try discriminate H; try reflexivity.
  pose proof (SFdiv_core_nonneg mx m ex e) as K.
  destruct (SFdiv_core_binary prec emax (Zpos mx) ex (Zpos m) e)
    as [[mz ez] lz].
  apply binary_round_aux_sign_clear, K.
Qed.

(** Dividing a positive finite double by a sign-clear number. *)
Lemma SFdiv_sign_clear_r (m : positive) (e : Z) (y : spec_float) :
  sign_clear y = true ->
  sign_clear (SF64div (S754_finite false m e) y) = true.
Proof.
  unfold SF64div, SFdiv.
  destruct y as [[ | ] | [ | ] | | [ | ] my ey]; simpl; intros H;
    try discriminate H; try reflexivity.
  pose proof (SFdiv_core_nonneg m my e ey) as K.
  destruct (SFdiv_core_binary prec emax (Zpos m) e (Zpos my) ey)
    as [[mz ez] lz].
  apply binary_round_aux_sign_clear, K.
Qed.

Lemma SFsqrt_sign_clear (x : spec_float) :
  sign_clear x = true -> sign_clear (SF64sqrt x) = true.
Proof.
  unfold SF64sqrt, SFsqrt.
  destruct x as [[ | ] | [ | ] | | [ | ] mx ex]; simpl; intros H;
    try discriminate H; try reflexivity.
  pose proof (SFsqrt_core_nonneg mx ex) as K.
  destruct (SFsqrt_core_binary prec emax (Zpos mx) ex) as [[mz ez] lz].
  apply binary_round_aux_sign_clear, K.
Qed.

Lemma SFmul_sign_clear (m : positive) (e : Z) (y : spec_float) :
  sign_clear y = true ->
  sign_clear (SF64mul (S754_finite false m e) y) = true.
Proof.
  unfold SF64mul, SFmul.
  destruct y as [[ | ] | [ | ] | | [ | ] my ey]; simpl; intros H;
    try discriminate H; try reflexivity.
  apply binary_round_aux_sign_clear. lia.
Qed.

(** A square root is not a number, [-0.0] (of [-0.0]), or a number with a
    clear sign. *)
Lemma SFsqrt_cases (x : spec_float) :
  SF64sqrt x = S754_nan \/ SF64sqrt x = S754_zero true
  \/ sign_clear (SF64sqrt x) = true.
Proof.
  destruct x as [[ | ] | [ | ] | | [ | ] mx ex];
    try (left; reflexivity); try (right; left; reflexivity);
    right; right; apply SFsqrt_sign_clear; reflexivity.
Qed.


Lemma sign_clear_leb (x : spec_float) :
  sign_clear x = true -> SFleb (S754_zero false) x = true.
Proof.
  destruct x as [[ | ] | [ | ] | | [ | ] mx ex]; simpl; intros H;
    try discriminate H; reflexivity.
Qed.

Lemma sign_clear_not_ltb (x : spec_float) :
  sign_clear x = true -> SFltb x (S754_zero false) = false.
Proof.
  destruct x as [[ | ] | [ | ] | | [ | ] mx ex]; simpl; intros H;
    try discriminate H; reflexivity.
Qed.

(** The order of two finite doubles of one sign goes by exponent, then by
    mantissa. *)
Lemma lex_compare_le (e1 e2 : Z) (m1 m2 : positive) :
  match (e1 ?= e2)%Z with
  | Lt => Lt | Gt => Gt | Eq => Pos.compare_cont Eq m1 m2
  end <> Gt
  <-> (e1 < e2 \/ (e1 = e2 /\ Zpos m1 <= Zpos m2))%Z.
Proof.
  change (Pos.compare_cont Eq m1 m2) with (m1 ?= m2)%positive.
  destruct (Z.compare_spec e1 e2) as [E | E | E];
    destruct (Pos.compare_spec m1 m2) as [M | M | M];
    split; intros H; try congruence; try lia; try discriminate.
Qed.

Lemma lex_compare_ge (e1 e2 : Z) (m1 m2 : positive) :
  match (e1 ?= e2)%Z with
  | Lt => Gt | Gt => Lt | Eq => CompOpp (Pos.compare_cont Eq m1 m2)
  end <> Gt
  <-> (e2 < e1 \/ (e1 = e2 /\ Zpos m2 <= Zpos m1))%Z.
Proof.
  change (Pos.compare_cont Eq m1 m2) with (m1 ?= m2)%positive.
  destruct (Z.compare_spec e1 e2) as [E | E | E];
    destruct (Pos.compare_spec m1 m2) as [M | M | M];
    simpl; split; intros H; try congruence; try lia; try discriminate.
Qed.

Lemma SFleb_finite_same_sign (s : bool) (m1 m2 : positive) (e1 e2 : Z) :
  SFleb (S754_finite s m1 e1) (S754_finite s m2 e2) = true
  <-> if s then (e2 < e1 \/ (e1 = e2 /\ Zpos m2 <= Zpos m1))%Z
      else (e1 < e2 \/ (e1 = e2 /\ Zpos m1 <= Zpos m2))%Z.
Proof.
  unfold SFleb, SFcompare. destruct s.
  - rewrite <- lex_compare_ge.
    destruct (match (e1 ?= e2)%Z with Lt => Gt | Gt => Lt | Eq => _ end);
      split; intros H; try congruence; try discriminate.
  - rewrite <- lex_compare_le.
    destruct (match (e1 ?= e2)%Z with Lt => Lt | Gt => Gt | Eq => _ end);
      split; intros H; try congruence; try discriminate.
Qed.

(** [<=] on doubles is transitive. *)
Lemma SFleb_trans (x y z : spec_float) :
  SFleb x y = true -> SFleb y z = true -> SFleb x z = true.
Proof.
  destruct x as [sx | sx | | sx mx ex], y as [sy | sy | | sy my ey],
           z as [sz | sz | | sz mz ez];
    try (intros H; discriminate H);
    try (intros _ H; discriminate H);
    try (destruct sx, sy, sz; simpl; intros H1 H2;
         (reflexivity || discriminate H1 || discriminate H2)).
  destruct sx, sy, sz;
    try (intros H1 H2; (reflexivity || discriminate H1 || discriminate H2)).
  - rewrite !(SFleb_finite_same_sign true). lia.
  - rewrite !(SFleb_finite_same_sign false). lia.
Qed.

Lemma leb_trans (x y z : float) :
  (x <=? y)%float = true -> (y <=? z)%float = true -> (x <=? z)%float = true.
Proof. rewrite !leb_spec. apply SFleb_trans. Qed.

End Rounding.

(** ** The range of the binary64 functions *)

Module F64Range.

Import F64 F64Facts Spec64 Rounding.
Local Open Scope float_scope.

Lemma G_spec : Prim2SF G = S754_finite false 5522539043063071 (-49).
Proof. vm_compute. reflexivity. Qed.

Lemma two_pi_spec :
  Prim2SF (2.0 * np_pi) = S754_finite false 7074237752028440 (-50).
Proof. vm_compute. reflexivity. Qed.

Lemma sixty_spec :
  Prim2SF SECONDS_IN_MINUTE = S754_finite false 8444249301319680 (-47).
Proof. vm_compute. reflexivity. Qed.

(** [get_period] and [bpm] on the specification side: the three operations
    of the one, the division of the other. *)
Lemma get_period_Prim2SF (length : float) :
  Prim2SF (get_period length)
  = SF64mul (S754_finite false 7074237752028440 (-50))
      (SF64sqrt (SF64div (Prim2SF length)
                   (S754_finite false 5522539043063071 (-49)))).
Proof.
  unfold get_period, np_sqrt.
  rewrite (mul_spec (2.0 * np_pi)), sqrt_spec, div_spec, two_pi_spec, G_spec.
  reflexivity.
Qed.

Lemma bpm_Prim2SF (length : float) :
  Prim2SF (bpm length)
  = SF64div (S754_finite false 8444249301319680 (-47))
      (Prim2SF (get_period length)).
Proof. unfold bpm. rewrite div_spec, sixty_spec. reflexivity. Qed.

(** Every period is not a number, [-0.0], or a number with a clear sign. *)
Lemma get_period_cases (length : float) :
  Prim2SF (get_period length) = S754_nan
  \/ Prim2SF (get_period length) = S754_zero true
  \/ sign_clear (Prim2SF (get_period length)) = true.
Proof.
  rewrite get_period_Prim2SF.
  destruct (SFsqrt_cases (SF64div (Prim2SF length)
              (S754_finite false 5522539043063071 (-49)))) as [E | [E | E]].
  - left. rewrite E. reflexivity.
  - right; left. rewrite E. reflexivity.
  - right; right. apply SFmul_sign_clear, E.
Qed.

Lemma leb_zero_cases (x : float) :
  (0 <=? x) = true ->
  Prim2SF x = S754_zero true \/ sign_clear (Prim2SF x) = true.
Proof.
  rewrite leb_spec. change (Prim2SF 0) with (S754_zero false).
  destruct (Prim2SF x) as [[ | ] | [ | ] | | [ | ] mx ex]; simpl; intros H;
    try discriminate H; auto.
Qed.

Lemma ltb_zero_sign_clear (x : float) :
  (0 <? x) = true -> sign_clear (Prim2SF x) = true.
Proof.
  rewrite ltb_spec. change (Prim2SF 0) with (S754_zero false).
  destruct (Prim2SF x) as [[ | ] | [ | ] | | [ | ] mx ex]; simpl; intros H;
    try discriminate H; auto.
Qed.


(** A double is not a number, below zero, or at least zero. *)
Lemma float_trichotomy (x : float) :
  is_nan x = true \/ (x <? 0) = true \/ (0 <=? x) = true.
Proof.
  rewrite is_nan_spec, ltb_spec, leb_spec.
  change (Prim2SF 0) with (S754_zero false).
  destruct (Prim2SF x) as [[ | ] | [ | ] | | [ | ] mx ex]; simpl; auto.
Qed.

Lemma get_period_sign_clear (length : float) :
  sign_clear (Prim2SF length) = true ->
  sign_clear (Prim2SF (get_period length)) = true.
Proof.
  intros H. rewrite get_period_Prim2SF.
  apply SFmul_sign_clear, SFsqrt_sign_clear, SFdiv_sign_clear_l, H.
Qed.

(** X1: [get_period] returns no negative number, whatever double it is
    given: the result is NaN, a zero or positive. *)
Theorem get_period_never_negative (length : float) :
  (get_period length <? 0) = false.
Proof.
  rewrite ltb_spec. change (Prim2SF 0) with (S754_zero false).
  destruct (get_period_cases length) as [E | [E | E]].
  - rewrite E. reflexivity.
  - rewrite E. reflexivity.
  - apply sign_clear_not_ltb, E.
Qed.

(** X2: on every double that is at least zero (both zeros and [+inf]
    included) [get_period] returns a number that is at least zero: rounding
    never turns the period of a valid length into NaN. *)
Theorem get_period_of_nonnegative (length : float) :
  (0 <=? length) = true -> (0 <=? get_period length) = true.
Proof.
  intros H. rewrite leb_spec. change (Prim2SF 0) with (S754_zero false).
  destruct (leb_zero_cases length H) as [E | E].
  - rewrite get_period_Prim2SF, E. reflexivity.
  - apply sign_clear_leb, get_period_sign_clear, E.
Qed.

Lemma get_period_of_nonnegative_witness :
  (0 <=? get_period 2.5) = true.
Proof.
  apply (get_period_of_nonnegative 2.5). vm_compute. reflexivity.
Defined.





(** X5: on every double above zero ([+inf] included) [bpm] returns a number
    that is at least zero, [+inf] when the period underflows to zero: never
    NaN and never negative. *)
Theorem bpm_of_positive (length : float) :
  (0 <? length) = true -> (0 <=? bpm length) = true.
Proof.
  intros H. rewrite leb_spec. change (Prim2SF 0) with (S754_zero false).
  apply sign_clear_leb. rewrite bpm_Prim2SF.
  apply SFdiv_sign_clear_r, get_period_sign_clear, ltb_zero_sign_clear, H.
Qed.

Lemma bpm_of_positive_witness :
  (0 <=? bpm 2.5) = true.
Proof.
  apply (bpm_of_positive 2.5). vm_compute. reflexivity.
Defined.

(** X6: a NaN out of [get_period] or [bpm] has one of two causes, a length
    that is NaN or a length below zero. *)
Theorem nan_only_from_bad_length (length : float) :
  is_nan (get_period length) = true \/ is_nan (bpm length) = true ->
  is_nan length = true \/ (length <? 0) = true.
Proof.
  intros H.
  destruct (float_trichotomy length) as [N | [N | N]]; auto.
  exfalso.
  assert (P : Prim2SF (get_period length) = S754_zero true
              \/ sign_clear (Prim2SF (get_period length)) = true).
  { destruct (leb_zero_cases length N) as [E | E].
    - left. rewrite get_period_Prim2SF, E. reflexivity.
    - right. apply get_period_sign_clear, E. }
  destruct H as [H | H]; apply is_nan_spec in H.
  - destruct P as [P | P]; rewrite H in P; discriminate P.
  - rewrite bpm_Prim2SF in H.
    destruct P as [P | P].
    + rewrite P in H. discriminate H.
    + apply (SFdiv_sign_clear_r 8444249301319680 (-47)) in P.
      rewrite H in P. discriminate P.
Qed.

Lemma nan_only_from_bad_length_witness :
  is_nan (-2.5) = true \/ (-2.5 <? 0) = true.
Proof.
  apply (nan_only_from_bad_length (-2.5)). left. vm_compute. reflexivity.
Defined.

(** X7: [max_speed] returns no negative number, whatever the library cosine
    and the arguments: a square root is NaN, a zero or positive. *)
Theorem max_speed_never_negative
    (np_cos : float -> float) (length theta : float) :
  (max_speed np_cos length theta <? 0) = false.
Proof.
  unfold max_speed, np_sqrt. rewrite ltb_spec, sqrt_spec.
  change (Prim2SF 0) with (S754_zero false).
  destruct (SFsqrt_cases (Prim2SF (2.0 * G * max_height np_cos length theta)))
    as [E | [E | E]].
  - rewrite E. reflexivity.
  - rewrite E. reflexivity.
  - apply sign_clear_not_ltb, E.
Qed.

(** X8: the small-angle test is downward closed: an angle at most an
    accepted angle is accepted. *)
Theorem check_small_angle_downward (a b : float) :
  (a <=? b) = true -> check_small_angle b = true ->
  check_small_angle a = true.
Proof.
  unfold check_small_angle. intros H K.
  destruct (b <=? np_pi / 1800.0) eqn:E; [ | discriminate K].
  rewrite (leb_trans a b _ H E). reflexivity.
Qed.

Lemma check_small_angle_downward_witness :
  check_small_angle (-100) = true.
Proof.
  apply (check_small_angle_downward (-100) 0.001);
    vm_compute; reflexivity.
Defined.

(** X9: the small-angle test accepts numbers only: an angle that is NaN is
    rejected, the comparison with NaN being false. *)
Theorem check_small_angle_rejects_nan (theta : float) :
  check_small_angle theta = true -> is_nan theta = false.
Proof.
  unfold check_small_angle. rewrite leb_spec. intros H.
  destruct (is_nan theta) eqn:N; [ | reflexivity].
  apply is_nan_spec in N. rewrite N in H. discriminate H.
Qed.

Lemma check_small_angle_rejects_nan_witness :
  is_nan 0.001 = false.
Proof.
  apply (check_small_angle_rejects_nan 0.001). vm_compute. reflexivity.
Defined.

End F64Range.

(** ** Powers of two *)

Module Pow2.

Import Exact.
Local Open Scope R_scope.


Lemma pow2_pos (e : Z) : 0 < pow2 e.
Proof. apply powerRZ_lt. lra. Qed.

Lemma pow2_add (a b : Z) : pow2 (a + b) = pow2 a * pow2 b.
Proof. apply powerRZ_add. lra. Qed.

Lemma pow2_succ (e : Z) : pow2 (e + 1) = 2 * pow2 e.
Proof. rewrite pow2_add. unfold pow2 at 2. simpl. lra. Qed.

Lemma pow2_0 : pow2 0 = 1.
Proof. reflexivity. Qed.

Lemma pow2_IZR (n : Z) : (0 <= n)%Z -> pow2 n = IZR (2 ^ n).
Proof.
  intros H. pattern n. apply natlike_ind; [ | | exact H].
  - reflexivity.
  - intros k Hk IH. unfold Z.succ. rewrite pow2_succ, IH.
    rewrite Z.pow_add_r by lia. rewrite mult_IZR. simpl. lra.
Qed.

Lemma pow2_le (a b : Z) : (a <= b)%Z -> pow2 a <= pow2 b.
Proof.
  intros H. replace b with (a + (b - a))%Z by lia.
  rewrite pow2_add, (pow2_IZR (b - a)) by lia.
  assert (1 <= IZR (2 ^ (b - a))).
  { apply IZR_le. pose proof (Z.pow_pos_nonneg 2 (b - a)). lia. }
  pose proof (pow2_pos a). nra.
Qed.

Lemma pow2_double_le (a b : Z) : (a < b)%Z -> 2 * pow2 a <= pow2 b.
Proof.
  intros H. rewrite <- pow2_succ. apply pow2_le. lia.
Qed.

End Pow2.

(** ** Shifting a located value *)

Module Located.

Import Exact Pow2.

Lemma loc_of_record_of_loc (m : Z) (l : location) :
  loc_of_shr_record (shr_record_of_loc m l) = l
  /\ shr_m (shr_record_of_loc m l) = m.
Proof. destruct l as [ | [ | | ]]; split; reflexivity. Qed.

(** One shift to the right halves the mantissa and keeps the place. *)
Lemma shr_1_located (mrs : shr_record) (e : Z) (x : R) :
  (0 <= shr_m mrs)%Z ->
  located (shr_m mrs) e (loc_of_shr_record mrs) x ->
  located (shr_m (shr_1 mrs)) (e + 1) (loc_of_shr_record (shr_1 mrs)) x
  /\ shr_m (shr_1 mrs) = (shr_m mrs / 2)%Z.
Proof.
  destruct mrs as [m r s]. simpl shr_m at 1 2.
  intros Hm H.
  pose proof (pow2_pos e) as U. pose proof (pow2_succ e) as S.
  assert (D : m = 0%Z \/ m = 1%Z
              \/ (exists p, m = Zpos (xO p)) \/ (exists p, m = Zpos (xI p))).
  { destruct m as [ | [p | p | ] | p]; eauto; lia. }
  destruct D as [-> | [-> | [[p ->] | [p ->]]]].
  - split; [ | reflexivity].
    destruct r, s; simpl in *; rewrite S; lra.
  - split; [ | reflexivity].
    destruct r, s; simpl in *; rewrite S; lra.
  - split.
    + assert (E : IZR (Zpos (xO p)) = (2 * IZR (Zpos p))%R).
      { rewrite <- mult_IZR. reflexivity. }
      destruct r, s; simpl in *; rewrite S; rewrite E in H; lra.
    + simpl. change (Zpos (xO p)) with (2 * Zpos p)%Z.
      rewrite Z.mul_comm, Z.div_mul by lia. reflexivity.
  - split.
    + assert (E : IZR (Zpos (xI p)) = (2 * IZR (Zpos p) + 1)%R).
      { rewrite <- mult_IZR, <- plus_IZR. reflexivity. }
      destruct r, s; simpl in *; rewrite S; rewrite E in H; lra.
    + simpl. change (Zpos (xI p)) with (2 * Zpos p + 1)%Z.
      apply Z.div_unique with 1%Z; lia.
Qed.

Lemma iter_shr_1_located (p : positive) (mrs : shr_record) (e : Z) (x : R) :
  (0 <= shr_m mrs)%Z ->
  located (shr_m mrs) e (loc_of_shr_record mrs) x ->
  located (shr_m (SpecFloat.iter_pos shr_1 p mrs)) (e + Zpos p)
    (loc_of_shr_record (SpecFloat.iter_pos shr_1 p mrs)) x
  /\ shr_m (SpecFloat.iter_pos shr_1 p mrs) = (shr_m mrs / 2 ^ Zpos p)%Z.
Proof.
  revert mrs e. induction p as [p IH | p IH | ]; intros mrs e Hm H;
    cbn [SpecFloat.iter_pos].
  - destruct (shr_1_located mrs e x Hm H) as [H1 E1].
    assert (Hm1 : (0 <= shr_m (shr_1 mrs))%Z).
    { rewrite E1. apply Z.div_pos; lia. }
    destruct (IH _ _ Hm1 H1) as [H2 E2].
    assert (Hm2 : (0 <= shr_m (SpecFloat.iter_pos shr_1 p (shr_1 mrs)))%Z).
    { rewrite E2. apply Z.div_pos; [lia | ]. apply Z.pow_pos_nonneg; lia. }
    destruct (IH _ _ Hm2 H2) as [H3 E3].
    split.
    + replace (e + Zpos p~1)%Z with (e + 1 + Zpos p + Zpos p)%Z by lia.
      exact H3.
    + assert (P : (2 ^ Zpos p~1 = 2 * 2 ^ Zpos p * 2 ^ Zpos p)%Z).
      { replace (Zpos p~1) with (1 + Zpos p + Zpos p)%Z by lia.
        rewrite !Z.pow_add_r by lia. reflexivity. }
      rewrite E3, E2, E1, P.
      rewrite !Z.div_div by (try lia; apply Z.pow_pos_nonneg; lia).
      try (f_equal; ring).
  - destruct (IH _ _ Hm H) as [H2 E2].
    assert (Hm2 : (0 <= shr_m (SpecFloat.iter_pos shr_1 p mrs))%Z).
    { rewrite E2. apply Z.div_pos; [lia | ]. apply Z.pow_pos_nonneg; lia. }
    destruct (IH _ _ Hm2 H2) as [H3 E3].
    split.
    + replace (e + Zpos p~0)%Z with (e + Zpos p + Zpos p)%Z by lia.
      exact H3.
    + assert (P : (2 ^ Zpos p~0 = 2 ^ Zpos p * 2 ^ Zpos p)%Z).
      { replace (Zpos p~0) with (Zpos p + Zpos p)%Z by lia.
        rewrite !Z.pow_add_r by lia. reflexivity. }
      rewrite E3, E2, P.
      rewrite !Z.div_div by (try lia; apply Z.pow_pos_nonneg; lia).
      try (f_equal; ring).
  - destruct (shr_1_located mrs e x Hm H) as [H1 E1]. split; assumption.
Qed.

(** The first step of rounding: shift to the exponent of the format. *)
Lemma shr_fexp_located (m e : Z) (l : location) (x : R) :
  (0 <= m)%Z ->
  (e <= fexp prec emax (Zdigits2 m + e))%Z ->
  located m e l x ->
  exists mrs,
    shr_fexp prec emax m e l = (mrs, fexp prec emax (Zdigits2 m + e))
    /\ located (shr_m mrs) (fexp prec emax (Zdigits2 m + e))
         (loc_of_shr_record mrs) x
    /\ shr_m mrs = (m / 2 ^ (fexp prec emax (Zdigits2 m + e) - e))%Z.
Proof.
  intros Hm He H. unfold shr_fexp, shr.
  destruct (loc_of_record_of_loc m l) as [L M].
  set (t := fexp prec emax (Zdigits2 m + e)) in *.
  destruct (t - e)%Z as [ | p | p] eqn:E.
  - exists (shr_record_of_loc m l). assert (t = e) by lia. subst t.
    rewrite H0 in *. rewrite L, M. repeat split.
    + exact H.
    + rewrite Z.div_1_r. reflexivity.
  - assert (Hm' : (0 <= shr_m (shr_record_of_loc m l))%Z) by (rewrite M; lia).
    assert (H' : located (shr_m (shr_record_of_loc m l)) e
                   (loc_of_shr_record (shr_record_of_loc m l)) x).
    { rewrite L, M. exact H. }
    destruct (iter_shr_1_located p _ e x Hm' H') as [H1 E1].
    exists (SpecFloat.iter_pos shr_1 p (shr_record_of_loc m l)).
    replace t with (e + Zpos p)%Z by lia. repeat split.
    + exact H1.
    + rewrite E1, M. reflexivity.
  - lia.
Qed.

End Located.

(** ** Rounding to nearest even keeps the order *)

Module Nearest.

Import Exact Pow2 Located Rounding.

Lemma digits2_pos_bounds (p : positive) :
  (2 ^ (Zpos (digits2_pos p) - 1) <= Zpos p < 2 ^ Zpos (digits2_pos p))%Z.
Proof.
  induction p as [p IH | p IH | ]; simpl digits2_pos.
  - rewrite Pos2Z.inj_succ.
    replace (Z.succ (Zpos (digits2_pos p)) - 1)%Z
      with (Z.succ (Zpos (digits2_pos p) - 1))%Z by lia.
    rewrite !Z.pow_succ_r by lia. lia.
  - rewrite Pos2Z.inj_succ.
    replace (Z.succ (Zpos (digits2_pos p)) - 1)%Z
      with (Z.succ (Zpos (digits2_pos p) - 1))%Z by lia.
    rewrite !Z.pow_succ_r by lia. lia.
  - simpl. lia.
Qed.

Lemma Zdigits2_bounds (m : Z) :
  (0 < m)%Z ->
  (0 < Zdigits2 m /\ 2 ^ (Zdigits2 m - 1) <= m < 2 ^ Zdigits2 m)%Z.
Proof.
  destruct m as [ | p | p]; try lia. intros _. simpl Zdigits2.
  split; [lia | apply digits2_pos_bounds].
Qed.

Lemma fexp_eq (e : Z) : fexp prec emax e = Z.max (e - 53) (-1074).
Proof. reflexivity. Qed.

Lemma round_nearest_even_bounds (m : Z) (l : location) :
  (m <= round_nearest_even m l <= m + 1)%Z.
Proof.
  destruct l as [ | [ | | ]]; simpl; try lia.
  destruct (Z.even m); lia.
Qed.

(** The second step of rounding: the carry of the rounded mantissa. *)
Lemma shr_fexp_carry (M t : Z) :
  (0 <= M <= 2 ^ 53)%Z -> (-1074 <= t)%Z ->
  match shr_m (fst (shr_fexp prec emax M t loc_Exact)) with
  | Z0 => S754_zero false
  | Zpos q =>
      if (snd (shr_fexp prec emax M t loc_Exact) <=? emax - prec)%Z
      then S754_finite false q (snd (shr_fexp prec emax M t loc_Exact))
      else S754_infinity false
  | Zneg _ => S754_nan
  end = assemble M t.
Proof.
  intros HM Ht. unfold assemble.
  destruct (Z.eqb_spec M 0) as [-> | N0].
  - unfold shr_fexp, shr. simpl Zdigits2. rewrite fexp_eq.
    destruct (Z.max (0 + t - 53) (-1074) - t)%Z eqn:E; try lia; reflexivity.
  - destruct (Z.ltb_spec M (2 ^ 53)) as [L | L].
    + destruct (Zdigits2_bounds M ltac:(lia)) as [D0 [D1 D2]].
      assert (D : (Zdigits2 M <= 53)%Z).
      { destruct (Z_le_gt_dec (Zdigits2 M) 53) as [ | G]; [assumption | ].
        exfalso.
        assert ((2 ^ 53 <= 2 ^ (Zdigits2 M - 1))%Z)
          by (apply Z.pow_le_mono_r; lia).
        lia. }
      unfold shr_fexp, shr. rewrite fexp_eq.
      destruct (Z.max (Zdigits2 M + t - 53) (-1074) - t)%Z eqn:E; try lia;
        simpl; destruct M; try lia; reflexivity.
    + assert (M = 2 ^ 53)%Z by lia. subst M.
      unfold shr_fexp, shr. rewrite fexp_eq.
      change (Zdigits2 (2 ^ 53)) with 54%Z.
      replace (Z.max (54 + t - 53) (-1074) - t)%Z with 1%Z by lia.
      simpl fst. simpl snd. reflexivity.
Qed.

(** Rounding a located value: the mantissa at the exponent of the format,
    rounded to nearest even, then assembled. *)
Lemma binary_round_aux_assemble (m e : Z) (l : location) (x : R) :
  (0 <= m)%Z ->
  (e <= fexp prec emax (Zdigits2 m + e))%Z ->
  located m e l x ->
  exists M0 l',
    located M0 (fexp prec emax (Zdigits2 m + e)) l' x
    /\ (0 <= M0 < 2 ^ 53)%Z
    /\ (-1074 < fexp prec emax (Zdigits2 m + e) -> 2 ^ 52 <= M0)%Z
    /\ binary_round_aux prec emax false m e l
       = assemble (round_nearest_even M0 l')
           (fexp prec emax (Zdigits2 m + e)).
Proof.
  intros Hm He H.
  destruct (shr_fexp_located m e l x Hm He H) as (mrs & E & L & V).
  set (t := fexp prec emax (Zdigits2 m + e)) in *.
  assert (Ht : (-1074 <= t)%Z) by (unfold t; rewrite fexp_eq; lia).
  assert (Hk : (0 < 2 ^ (t - e))%Z) by (apply Z.pow_pos_nonneg; lia).
  assert (B : (0 <= shr_m mrs < 2 ^ 53)%Z
              /\ (-1074 < t -> 2 ^ 52 <= shr_m mrs)%Z).
  { rewrite V. destruct (Z.eq_dec m 0) as [-> | N].
    - rewrite Z.div_0_l by lia. split; [lia | ].
      intros G. exfalso. unfold t in *. simpl Zdigits2 in *.
      rewrite fexp_eq in *. lia.
    - destruct (Zdigits2_bounds m ltac:(lia)) as [D0 [D1 D2]].
      assert (T : t = Z.max (Zdigits2 m + e - 53) (-1074))
        by (unfold t; apply fexp_eq).
      split; [split | ].
      + apply Z.div_pos; lia.
      + apply Z.div_lt_upper_bound; [lia | ].
        rewrite <- Z.pow_add_r by lia.
        assert (2 ^ Zdigits2 m <= 2 ^ (t - e + 53))%Z
          by (apply Z.pow_le_mono_r; lia).
        lia.
      + intros G. apply Z.div_le_lower_bound; [lia | ].
        rewrite <- Z.pow_add_r by lia.
        assert (2 ^ (t - e + 52) <= 2 ^ (Zdigits2 m - 1))%Z
          by (apply Z.pow_le_mono_r; lia).
        lia. }
  destruct B as [B1 B2].
  exists (shr_m mrs), (loc_of_shr_record mrs).
  repeat split; try assumption; try lia.
  unfold binary_round_aux. rewrite E.
  pose proof (round_nearest_even_bounds (shr_m mrs) (loc_of_shr_record mrs))
    as RB.
  pose proof (shr_fexp_carry
                (round_nearest_even (shr_m mrs) (loc_of_shr_record mrs)) t
                ltac:(lia) Ht) as C.
  destruct (shr_fexp prec emax
              (round_nearest_even (shr_m mrs) (loc_of_shr_record mrs)) t
              loc_Exact) as [mrs'' e''].
  exact C.
Qed.

(** At one exponent, rounding to nearest even keeps the order. *)
Lemma round_nearest_even_mono (m1 m2 t : Z) (l1 l2 : location) (x1 x2 : R) :
  located m1 t l1 x1 -> located m2 t l2 x2 -> (x1 <= x2)%R ->
  (round_nearest_even m1 l1 <= round_nearest_even m2 l2)%Z.
Proof.
  intros H1 H2 H. pose proof (pow2_pos t) as U.
  assert (A : (IZR m1 * pow2 t <= x1)%R).
  { destruct l1 as [ | c]; simpl in H1; lra. }
  assert (B : (x2 < (IZR m2 + 1) * pow2 t)%R).
  { destruct l2 as [ | c]; simpl in H2; lra. }
  assert (C : (m1 < m2 + 1)%Z).
  { apply lt_IZR. rewrite plus_IZR. nra. }
  pose proof (round_nearest_even_bounds m1 l1) as R1.
  pose proof (round_nearest_even_bounds m2 l2) as R2.
  destruct (Z.eq_dec m1 m2) as [-> | N]; [ | lia].
  destruct l1 as [ | [ | | ]], l2 as [ | [ | | ]]; simpl in *;
    try (destruct (Z.even m2); lia); exfalso; lra.
Qed.

Lemma to_pos_id (M : Z) : (0 < M)%Z -> Zpos (Z.to_pos M) = M.
Proof. intros H. apply Z2Pos.id, H. Qed.

Ltac finite_leb :=
  apply (SFleb_finite_same_sign false);
  rewrite ?to_pos_id by lia;
  change (Zpos (Z.to_pos (2 ^ 53 / 2))) with (2 ^ 52)%Z;
  lia.

(** Assembling keeps the order of the rounded mantissas at one exponent. *)
Lemma assemble_mono_mantissa (M1 M2 t : Z) :
  (0 <= M1)%Z -> (M1 <= M2)%Z -> (M2 <= 2 ^ 53)%Z ->
  SFleb (assemble M1 t) (assemble M2 t) = true.
Proof.
  intros H0 H12 H2. unfold assemble.
  destruct (Z.eqb_spec M2 0) as [E2 | E2].
  - assert (M1 = 0)%Z by lia. subst. reflexivity.
  - destruct (Z.eqb_spec M1 0) as [E1 | E1].
    + destruct (Z.ltb_spec M2 (2 ^ 53)), (Z.leb_spec t (emax - prec)),
        (Z.leb_spec (t + 1) (emax - prec)); reflexivity.
    + destruct (Z.ltb_spec M2 (2 ^ 53)) as [L2 | L2];
        [ | assert (M2 = 2 ^ 53)%Z by lia; subst M2];
        (destruct (Z.ltb_spec M1 (2 ^ 53)) as [L1 | L1];
         [ | assert (M1 = 2 ^ 53)%Z by lia; subst M1]);
        try lia;
        destruct (Z.leb_spec t (emax - prec)) as [T | T],
                 (Z.leb_spec (t + 1) (emax - prec)) as [T' | T'];
        try lia; try reflexivity; finite_leb.
Qed.

(** A result at a lower exponent of the format is below every normal result
    at a higher one. *)
Lemma assemble_mono_exponent (M1 M2 t1 t2 : Z) :
  (0 <= M1 <= 2 ^ 53)%Z -> (2 ^ 52 <= M2 <= 2 ^ 53)%Z -> (t1 < t2)%Z ->
  SFleb (assemble M1 t1) (assemble M2 t2) = true.
Proof.
  intros H1 H2 T. unfold assemble.
  destruct (Z.eqb_spec M2 0) as [E2 | E2]; [lia | ].
  destruct (Z.eqb_spec M1 0) as [E1 | E1].
  - destruct (Z.ltb_spec M2 (2 ^ 53)), (Z.leb_spec t2 (emax - prec)),
      (Z.leb_spec (t2 + 1) (emax - prec)); reflexivity.
  - destruct (Z.ltb_spec M2 (2 ^ 53)) as [L2 | L2];
      [ | assert (M2 = 2 ^ 53)%Z by lia; subst M2];
      (destruct (Z.ltb_spec M1 (2 ^ 53)) as [L1 | L1];
       [ | assert (M1 = 2 ^ 53)%Z by lia; subst M1]);
      destruct (Z.leb_spec t1 (emax - prec)) as [A | A],
               (Z.leb_spec (t1 + 1) (emax - prec)) as [A' | A'],
               (Z.leb_spec t2 (emax - prec)) as [B | B],
               (Z.leb_spec (t2 + 1) (emax - prec)) as [B' | B'];
      try lia; try reflexivity; finite_leb.
Qed.

(** Rounding keeps the order of the values it rounds. *)
Lemma binary_round_aux_mono
    (m1 e1 : Z) (l1 : location) (x1 : R)
    (m2 e2 : Z) (l2 : location) (x2 : R) :
  (0 <= m1)%Z -> (e1 <= fexp prec emax (Zdigits2 m1 + e1))%Z ->
  located m1 e1 l1 x1 ->
  (0 <= m2)%Z -> (e2 <= fexp prec emax (Zdigits2 m2 + e2))%Z ->
  located m2 e2 l2 x2 ->
  (x1 <= x2)%R ->
  SFleb (binary_round_aux prec emax false m1 e1 l1)
        (binary_round_aux prec emax false m2 e2 l2) = true.
Proof.
  intros Hm1 He1 H1 Hm2 He2 H2 H.
  destruct (binary_round_aux_assemble m1 e1 l1 x1 Hm1 He1 H1)
    as (M1 & k1 & L1 & B1 & N1 & E1).
  destruct (binary_round_aux_assemble m2 e2 l2 x2 Hm2 He2 H2)
    as (M2 & k2 & L2 & B2 & N2 & E2).
  rewrite E1, E2. clear E1 E2.
  assert (T1 : (-1074 <= fexp prec emax (Zdigits2 m1 + e1))%Z)
    by (rewrite fexp_eq; lia).
  assert (T2 : (-1074 <= fexp prec emax (Zdigits2 m2 + e2))%Z)
    by (rewrite fexp_eq; lia).
  generalize dependent (fexp prec emax (Zdigits2 m1 + e1)).
  generalize dependent (fexp prec emax (Zdigits2 m2 + e2)).
  intros t2 _ L2 N2 T2 t1 _ L1 N1 T1.
  pose proof (round_nearest_even_bounds M1 k1) as R1.
  pose proof (round_nearest_even_bounds M2 k2) as R2.
  assert (A1 : (IZR M1 * pow2 t1 <= x1)%R).
  { destruct k1 as [ | c]; unfold located in L1; lra. }
  assert (A2 : (x2 < (IZR M2 + 1) * pow2 t2)%R).
  { pose proof (pow2_pos t2).
    destruct k2 as [ | c]; unfold located in L2; lra. }
  destruct (Z_lt_le_dec t2 t1) as [G | G].
  - exfalso.
    pose proof (pow2_pos t2) as U2. pose proof (pow2_double_le t2 t1 G) as D.
    assert (P1 : (IZR (2 ^ 52) <= IZR M1)%R) by (apply IZR_le; lia).
    assert (P2 : (IZR M2 + 1 <= IZR (2 ^ 53))%R).
    { rewrite <- plus_IZR. apply IZR_le. lia. }
    change (2 ^ 52)%Z with 4503599627370496%Z in P1.
    change (2 ^ 53)%Z with 9007199254740992%Z in P2.
    assert (Q1 : (4503599627370496 * pow2 t1 <= IZR M1 * pow2 t1)%R).
    { apply Rmult_le_compat_r; lra. }
    assert (Q2 : ((IZR M2 + 1) * pow2 t2 <= 9007199254740992 * pow2 t2)%R).
    { apply Rmult_le_compat_r; lra. }
    lra.
  - destruct (Z.eq_dec t1 t2) as [E | E].
    + rewrite <- E in *.
      apply assemble_mono_mantissa; try lia.
      apply (round_nearest_even_mono M1 M2 t1 k1 k2 x1 x2); assumption.
    + apply assemble_mono_exponent; lia.
Qed.

End Nearest.

(** ** Division, square root and product keep the order *)

Module Operations.

Import Exact Pow2 Located Nearest Rounding Spec64.

Lemma valid_finite (s : bool) (m : positive) (e : Z) :
  valid_binary (S754_finite s m e) = true ->
  (e = Z.max (Zpos (digits2_pos m) + e - 53) (-1074))%Z.
Proof.
  unfold SpecFloat.valid_binary, bounded, canonical_mantissa.
  intros H. apply andb_prop in H. destruct H as [H _].
  apply Z.eqb_eq in H. rewrite fexp_eq in H. lia.
Qed.

(** On valid doubles the comparison is the order of the values. *)
Lemma valid_leb_value (m1 m2 : positive) (e1 e2 : Z) :
  valid_binary (S754_finite false m1 e1) = true ->
  valid_binary (S754_finite false m2 e2) = true ->
  SFleb (S754_finite false m1 e1) (S754_finite false m2 e2) = true ->
  (IZR (Zpos m1) * pow2 e1 <= IZR (Zpos m2) * pow2 e2)%R.
Proof.
  intros V1 V2 H.
  apply valid_finite in V1. apply valid_finite in V2.
  apply (SFleb_finite_same_sign false) in H.
  pose proof (digits2_pos_bounds m1) as [_ D1].
  pose proof (digits2_pos_bounds m2) as [D2 _].
  pose proof (pow2_pos e1) as U1. pose proof (pow2_pos e2) as U2.
  destruct H as [H | [-> H]].
  - assert (L1 : (Zpos m1 < 2 ^ 53)%Z).
    { assert (2 ^ Zpos (digits2_pos m1) <= 2 ^ 53)%Z
        by (apply Z.pow_le_mono_r; lia).
      lia. }
    assert (L2 : (2 ^ 52 <= Zpos m2)%Z).
    { assert (2 ^ 52 <= 2 ^ (Zpos (digits2_pos m2) - 1))%Z
        by (apply Z.pow_le_mono_r; lia).
      lia. }
    apply IZR_lt in L1. apply IZR_le in L2.
    change (2 ^ 53)%Z with 9007199254740992%Z in L1.
    change (2 ^ 52)%Z with 4503599627370496%Z in L2.
    pose proof (pow2_double_le e1 e2 H) as D.
    assert (Q1 : (IZR (Zpos m1) * pow2 e1 <= 9007199254740992 * pow2 e1)%R).
    { apply Rmult_le_compat_r; lra. }
    assert (Q2 : (4503599627370496 * pow2 e2 <= IZR (Zpos m2) * pow2 e2)%R).
    { apply Rmult_le_compat_r; lra. }
    lra.
  - apply Rmult_le_compat_r; [lra | ]. apply IZR_le. exact H.
Qed.

(** The product of a normal double and a double, as rounding sees it. *)
Lemma SFmul_located (mc m : positive) (ec e : Z) :
  (2 ^ 52 <= Zpos mc)%Z ->
  (0 <= Zpos (mc * m))%Z
  /\ (ec + e <= fexp prec emax (Zdigits2 (Zpos (mc * m)) + (ec + e)))%Z
  /\ located (Zpos (mc * m)) (ec + e) loc_Exact
       (IZR (Zpos mc) * pow2 ec * (IZR (Zpos m) * pow2 e)).
Proof.
  intros C. split; [lia | split].
  - rewrite fexp_eq.
    destruct (Zdigits2_bounds (Zpos (mc * m)) ltac:(lia)) as [D0 [D1 D2]].
    assert (52 < Zdigits2 (Zpos (mc * m)))%Z.
    { apply (Z.pow_lt_mono_r_iff 2); lia. }
    lia.
  - unfold located. rewrite Pos2Z.inj_mul, mult_IZR, pow2_add. ring.
Qed.

(** Where the remainder [r] of a division by [n] puts the quotient. *)
Lemma new_location_cases (n r : Z) :
  (0 <= r < n)%Z ->
  (r = 0%Z /\ new_location n r = loc_Exact)
  \/ ((0 < r)%Z
      /\ exists c, new_location n r = loc_Inexact c
                   /\ match c with
                      | Lt => (2 * r < n)%Z
                      | Eq => (2 * r = n)%Z
                      | Gt => (n < 2 * r)%Z
                      end).
Proof.
  intros H. unfold new_location.
  destruct (Z.even n) eqn:E;
    unfold new_location_even, new_location_odd;
    destruct (Z.eqb_spec r 0) as [-> | N];
    try (left; split; reflexivity); right; (split; [lia | ]).
  - exists (2 * r ?= n)%Z. split; [reflexivity | ].
    destruct (Z.compare_spec (2 * r) n); lia.
  - assert (O : Z.odd n = true) by (rewrite <- Z.negb_even, E; reflexivity).
    apply Z.odd_spec in O. destruct O as [k O].
    destruct (Z.compare_spec (2 * r + 1) n);
      [exists Lt | exists Lt | exists Gt]; split; try reflexivity; lia.
Qed.

(** A value [(q + r / n) * u] with [0 < r < n] lies strictly inside the cell
    of [q]. *)
Lemma fraction_cell (q r n : Z) (u : R) :
  (0 < r < n)%Z -> (0 < u)%R ->
  let x := ((IZR n * IZR q + IZR r) * u / IZR n)%R in
  (IZR q * u < x < (IZR q + 1) * u)%R
  /\ ((2 * r < n)%Z -> 2 * x < (2 * IZR q + 1) * u)%R
  /\ ((2 * r = n)%Z -> 2 * x = (2 * IZR q + 1) * u)%R
  /\ ((n < 2 * r)%Z -> (2 * IZR q + 1) * u < 2 * x)%R.
Proof.
  intros H U x.
  assert (Hr : (0 < IZR r)%R) by (apply IZR_lt; lia).
  assert (Hn : (IZR r < IZR n)%R) by (apply IZR_lt; lia).
  assert (X : x = (IZR q * u + IZR r * u / IZR n)%R).
  { unfold x. field. lra. }
  set (v := (IZR r * u / IZR n)%R) in *.
  assert (V : (v * IZR n = IZR r * u)%R) by (unfold v; field; lra).
  assert (V0 : (0 < v)%R).
  { unfold v. apply Rdiv_lt_0_compat; [ | lra].
    apply Rmult_lt_0_compat; lra. }
  assert (V1 : (v < u)%R).
  { apply (Rmult_lt_reg_r (IZR n)); [lra | ]. rewrite V.
    rewrite (Rmult_comm u). apply Rmult_lt_compat_r; lra. }
  rewrite X. repeat split; try lra.
  - intros C. apply IZR_lt in C. rewrite mult_IZR in C.
    assert (2 * v < u)%R; [ | lra].
    apply (Rmult_lt_reg_r (IZR n)); [lra | ].
    replace (2 * v * IZR n)%R with (2 * IZR r * u)%R by lra.
    rewrite (Rmult_comm u). apply Rmult_lt_compat_r; lra.
  - intros C. apply (f_equal IZR) in C. rewrite mult_IZR in C.
    assert (2 * v = u)%R; [ | lra].
    apply (Rmult_eq_reg_r (IZR n)); [ | lra].
    replace (2 * v * IZR n)%R with (2 * IZR r * u)%R by lra.
    rewrite C. ring.
  - intros C. apply IZR_lt in C. rewrite mult_IZR in C.
    assert (u < 2 * v)%R; [ | lra].
    apply (Rmult_lt_reg_r (IZR n)); [lra | ].
    replace (2 * v * IZR n)%R with (2 * IZR r * u)%R by lra.
    rewrite (Rmult_comm u). apply Rmult_lt_compat_r; lra.
Qed.

(** The quotient of two doubles, as rounding sees it. *)
Lemma SFdiv_core_located (m1 m2 : positive) (e1 e2 : Z) :
  exists q e' l,
    SFdiv_core_binary prec emax (Zpos m1) e1 (Zpos m2) e2 = (q, e', l)
    /\ (0 <= q)%Z
    /\ (e' <= fexp prec emax (Zdigits2 q + e'))%Z
    /\ located q e' l
         (IZR (Zpos m1) * pow2 e1 / (IZR (Zpos m2) * pow2 e2)).
Proof.
  unfold SFdiv_core_binary.
  set (D := (Zdigits2 (Zpos m1) + e1 - (Zdigits2 (Zpos m2) + e2))%Z).
  set (e' := Z.min (fexp prec emax D) (e1 - e2)).
  set (s := (e1 - e2 - e')%Z).
  assert (Hs : (0 <= s)%Z) by (unfold s, e'; lia).
  set (m' := match s with
             | Zpos _ => Z.shiftl (Zpos m1) s
             | Z0 => Zpos m1
             | Zneg _ => 0%Z
             end).
  assert (Em : m' = (Zpos m1 * 2 ^ s)%Z).
  { unfold m'. destruct s as [ | p | p] eqn:Es.
    - simpl. lia.
    - apply Z.shiftl_mul_pow2. lia.
    - lia. }
  assert (P : (0 < 2 ^ s)%Z) by (apply Z.pow_pos_nonneg; lia).
  pose proof (Z_div_mod m' (Zpos m2) eq_refl) as DM.
  destruct (Z.div_eucl m' (Zpos m2)) as [q r].
  destruct DM as [DM R].
  assert (Hq : (0 <= q)%Z) by nia.
  exists q, e', (new_location (Zpos m2) r).
  split; [reflexivity | split; [exact Hq | split]].
  - (* the quotient is fine enough *)
    rewrite fexp_eq.
    destruct (Z_le_gt_dec e' (-1074)) as [L | G].
    + destruct (Z.eq_dec q 0) as [-> | N]; [simpl; lia | ].
      destruct (Zdigits2_bounds q ltac:(lia)). lia.
    + assert (F : (e' <= D - 53)%Z).
      { unfold e' in *. rewrite fexp_eq in *. lia. }
      destruct (Zdigits2_bounds (Zpos m1) ltac:(lia)) as [A0 [A1 A2]].
      destruct (Zdigits2_bounds (Zpos m2) ltac:(lia)) as [B0 [B1 B2]].
      set (d1 := Zdigits2 (Zpos m1)) in *.
      set (d2 := Zdigits2 (Zpos m2)) in *.
      assert (S1 : (d2 - d1 + 53 <= s)%Z) by (unfold s, D in *; lia).
      assert (Q : (2 ^ 52 <= q)%Z).
      { assert (X1 : (2 ^ (d2 + 52) <= 2 ^ (d1 - 1 + s))%Z)
          by (apply Z.pow_le_mono_r; lia).
        rewrite !Z.pow_add_r in X1 by lia.
        assert (X2 : (2 ^ (d1 - 1) * 2 ^ s <= m')%Z) by (rewrite Em; nia).
        assert (X3 : (Zpos m2 * 2 ^ 52 < 2 ^ d2 * 2 ^ 52)%Z) by nia.
        assert (X4 : (Zpos m2 * 2 ^ 52 <= Zpos m2 * q + r)%Z) by lia.
        destruct (Z_le_gt_dec (2 ^ 52) q) as [ | C]; [assumption | ].
        exfalso. nia. }
      destruct (Zdigits2_bounds q ltac:(lia)) as [C0 [C1 C2]].
      assert (52 < Zdigits2 q)%Z.
      { apply (Z.pow_lt_mono_r_iff 2); lia. }
      lia.
  - (* the quotient is located *)
    pose proof (pow2_pos e') as U. pose proof (pow2_pos e2) as U2.
    assert (Hm2 : (0 < IZR (Zpos m2))%R) by (apply IZR_lt; lia).
    assert (X : (IZR (Zpos m1) * pow2 e1 / (IZR (Zpos m2) * pow2 e2)
                 = (IZR (Zpos m2) * IZR q + IZR r) * pow2 e'
                   / IZR (Zpos m2))%R).
    { rewrite <- mult_IZR, <- plus_IZR, <- DM, Em, mult_IZR.
      rewrite <- (pow2_IZR s) by lia.
      replace e1 with (e2 + (s + e'))%Z at 1 by (unfold s; lia).
      rewrite !pow2_add. field. lra. }
    rewrite X.
    destruct (new_location_cases (Zpos m2) r R) as [[-> E] | [R0 [c [E C]]]];
      rewrite E.
    + unfold located. field. lra.
    + destruct (fraction_cell q r (Zpos m2) (pow2 e') ltac:(lia) U)
        as (F1 & F2 & F3 & F4).
      unfold located. split; [exact F1 | ].
      destruct c; auto.
Qed.

Lemma lt_of_squares (a b : R) : (0 <= a)%R -> (0 <= b)%R -> (a * a < b * b)%R -> (a < b)%R.
Proof. intros Ha Hb H. apply Rsqr_incrst_0; assumption. Qed.

(** The square root of a double, as rounding sees it. *)
Lemma SFsqrt_core_located (m : positive) (e : Z) :
  exists q e' l,
    SFsqrt_core_binary prec emax (Zpos m) e = (q, e', l)
    /\ (0 <= q)%Z
    /\ (e' <= fexp prec emax (Zdigits2 q + e'))%Z
    /\ located q e' l (sqrt (IZR (Zpos m) * pow2 e)).
Proof.
  unfold SFsqrt_core_binary.
  set (K := Z.div2 (Zdigits2 (Zpos m) + e + 1)).
  set (e' := Z.min (fexp prec emax K) (Z.div2 e)).
  set (s := (e - 2 * e')%Z).
  assert (HK : (2 * K <= Zdigits2 (Zpos m) + e + 1)%Z).
  { unfold K. rewrite Z.div2_div.
    pose proof (Z.mul_div_le (Zdigits2 (Zpos m) + e + 1) 2). lia. }
  assert (He : (2 * Z.div2 e <= e)%Z).
  { rewrite Z.div2_div. pose proof (Z.mul_div_le e 2). lia. }
  assert (Hs : (0 <= s)%Z) by (unfold s, e'; lia).
  set (m' := match s with
             | Zpos _ => Z.shiftl (Zpos m) s
             | Z0 => Zpos m
             | Zneg _ => 0%Z
             end).
  assert (Em : m' = (Zpos m * 2 ^ s)%Z).
  { unfold m'. destruct s as [ | p | p] eqn:Es.
    - simpl. lia.
    - apply Z.shiftl_mul_pow2. lia.
    - lia. }
  assert (P : (0 < 2 ^ s)%Z) by (apply Z.pow_pos_nonneg; lia).
  assert (Hm' : (0 < m')%Z) by (rewrite Em; nia).
  pose proof (Z.sqrtrem_spec m' ltac:(lia)) as SP.
  destruct (Z.sqrtrem m') as [q r].
  destruct SP as [SP R].
  assert (Hq : (0 <= q)%Z) by lia.
  exists q, e', (if (r =? 0)%Z then loc_Exact
                 else loc_Inexact (if (r <=? q)%Z then Lt else Gt)).
  split; [reflexivity | split; [exact Hq | split]].
  - rewrite fexp_eq.
    destruct (Z_le_gt_dec e' (-1074)) as [L | G].
    + destruct (Z.eq_dec q 0) as [-> | N]; [simpl; lia | ].
      destruct (Zdigits2_bounds q ltac:(lia)). lia.
    + assert (F : (e' <= K - 53)%Z).
      { unfold e' in *. rewrite fexp_eq in *. lia. }
      destruct (Zdigits2_bounds (Zpos m) ltac:(lia)) as [A0 [A1 A2]].
      set (d := Zdigits2 (Zpos m)) in *.
      assert (S1 : (105 - d <= s)%Z) by (unfold s; lia).
      assert (Q : (2 ^ 52 <= q)%Z).
      { assert (X1 : (2 ^ 104 <= 2 ^ (d - 1 + s))%Z)
          by (apply Z.pow_le_mono_r; lia).
        rewrite Z.pow_add_r in X1 by lia.
        assert (X2 : (2 ^ 104 <= m')%Z) by (rewrite Em; nia).
        change (2 ^ 104)%Z with (2 ^ 52 * 2 ^ 52)%Z in X2.
        destruct (Z_le_gt_dec (2 ^ 52) q) as [ | C]; [assumption | ].
        exfalso. assert (q + 1 <= 2 ^ 52)%Z by lia. nia. }
      destruct (Zdigits2_bounds q ltac:(lia)) as [C0 [C1 C2]].
      assert (52 < Zdigits2 q)%Z.
      { apply (Z.pow_lt_mono_r_iff 2); lia. }
      lia.
  - pose proof (pow2_pos e') as U.
    assert (X : (IZR (Zpos m) * pow2 e = IZR m' * (pow2 e' * pow2 e'))%R).
    { rewrite Em, mult_IZR, <- (pow2_IZR s) by lia.
      replace e with (s + (e' + e'))%Z at 1 by (unfold s; lia).
      rewrite !pow2_add. ring. }
    rewrite X.
    assert (M0 : (0 <= IZR m')%R) by (apply IZR_le; lia).
    rewrite sqrt_mult by nra.
    rewrite sqrt_square by lra.
    set (y := sqrt (IZR m')).
    assert (Y0 : (0 <= y)%R) by apply sqrt_pos.
    assert (Y2 : (y * y = IZR q * IZR q + IZR r)%R).
    { unfold y. rewrite sqrt_sqrt by lra.
      rewrite SP, plus_IZR, mult_IZR. reflexivity. }
    assert (Q0 : (0 <= IZR q)%R) by (apply IZR_le; lia).
    destruct (Z.eqb_spec r 0) as [-> | N].
    + unfold located. f_equal.
      assert (y * y = IZR q * IZR q)%R by lra.
      destruct (Rtotal_order y (IZR q)) as [C | [C | C]]; [ | exact C | ];
        exfalso; nra.
    + assert (R1 : (1 <= IZR r)%R) by (apply IZR_le; lia).
      assert (R2 : (IZR r <= 2 * IZR q)%R).
      { rewrite <- mult_IZR. apply IZR_le. lia. }
      assert (A : (IZR q < y)%R) by (apply lt_of_squares; nra).
      assert (B : (y < IZR q + 1)%R) by (apply lt_of_squares; nra).
      unfold located. split; [split; nra | ].
      destruct (Z.leb_spec r q) as [C | C].
      * apply IZR_le in C.
        assert (2 * y < 2 * IZR q + 1)%R by (apply lt_of_squares; nra).
        nra.
      * assert (C' : (IZR q + 1 <= IZR r)%R).
        { rewrite <- plus_IZR. apply IZR_le. lia. }
        assert (2 * IZR q + 1 < 2 * y)%R by (apply lt_of_squares; nra).
        nra.
Qed.

Lemma sign_clear_above_zero (s : bool) (r : spec_float) :
  sign_clear r = true -> SFleb (S754_zero s) r = true.
Proof.
  destruct r as [[ | ] | [ | ] | | [ | ] m e]; simpl; intros H;
    try discriminate H; reflexivity.
Qed.

Lemma sign_clear_below_inf (r : spec_float) :
  sign_clear r = true -> SFleb r (S754_infinity false) = true.
Proof.
  destruct r as [[ | ] | [ | ] | | [ | ] m e]; simpl; intros H;
    try discriminate H; reflexivity.
Qed.

Lemma value_pos (m : positive) (e : Z) : (0 < IZR (Zpos m) * pow2 e)%R.
Proof.
  apply Rmult_lt_0_compat; [apply IZR_lt; lia | apply pow2_pos].
Qed.

(** Division by a positive finite double keeps the order of doubles that
    are at least zero. *)
Lemma SFdiv_mono (a b : spec_float) (mg : positive) (eg : Z) :
  valid_binary a = true -> valid_binary b = true ->
  SFleb (S754_zero false) a = true -> SFleb a b = true ->
  SFleb (SF64div a (S754_finite false mg eg))
        (SF64div b (S754_finite false mg eg)) = true.
Proof.
  intros Va Vb Ha Hab.
  destruct a as [[ | ] | [ | ] | | [ | ] ma ea]; try discriminate Ha;
    destruct b as [[ | ] | [ | ] | | [ | ] mb eb]; try discriminate Hab;
    try reflexivity;
    try (apply sign_clear_above_zero, SFdiv_sign_clear_l; reflexivity);
    try (apply sign_clear_below_inf, SFdiv_sign_clear_l; reflexivity).
  unfold SF64div, SFdiv.
  destruct (SFdiv_core_located ma mg ea eg) as (q1 & e1 & l1 & E1 & Q1 & F1 & L1).
  destruct (SFdiv_core_located mb mg eb eg) as (q2 & e2 & l2 & E2 & Q2 & F2 & L2).
  rewrite E1, E2. simpl xorb.
  apply (binary_round_aux_mono q1 e1 l1 _ q2 e2 l2 _ Q1 F1 L1 Q2 F2 L2).
  pose proof (valid_leb_value ma mb ea eb Va Vb Hab) as V.
  pose proof (value_pos mg eg) as G.
  unfold Rdiv. apply Rmult_le_compat_r; [ | exact V].
  apply Rlt_le, Rinv_0_lt_compat, G.
Qed.

(** The square root keeps the order of doubles that are at least zero. *)
Lemma SFsqrt_mono (a b : spec_float) :
  valid_binary a = true -> valid_binary b = true ->
  SFleb (S754_zero false) a = true -> SFleb a b = true ->
  SFleb (SF64sqrt a) (SF64sqrt b) = true.
Proof.
  intros Va Vb Ha Hab.
  destruct a as [[ | ] | [ | ] | | [ | ] ma ea]; try discriminate Ha;
    destruct b as [[ | ] | [ | ] | | [ | ] mb eb]; try discriminate Hab;
    try reflexivity;
    try (apply sign_clear_above_zero, SFsqrt_sign_clear; reflexivity);
    try (apply sign_clear_below_inf, SFsqrt_sign_clear; reflexivity).
  unfold SF64sqrt, SFsqrt.
  destruct (SFsqrt_core_located ma ea) as (q1 & e1 & l1 & E1 & Q1 & F1 & L1).
  destruct (SFsqrt_core_located mb eb) as (q2 & e2 & l2 & E2 & Q2 & F2 & L2).
  rewrite E1, E2.
  apply (binary_round_aux_mono q1 e1 l1 _ q2 e2 l2 _ Q1 F1 L1 Q2 F2 L2).
  apply sqrt_le_1_alt.
  apply (valid_leb_value ma mb ea eb Va Vb Hab).
Qed.

(** Multiplication by a positive normal double keeps the order of doubles
    that are at least zero. *)
Lemma SFmul_mono (mc : positive) (ec : Z) (a b : spec_float) :
  (2 ^ 52 <= Zpos mc)%Z ->
  valid_binary a = true -> valid_binary b = true ->
  SFleb (S754_zero false) a = true -> SFleb a b = true ->
  SFleb (SF64mul (S754_finite false mc ec) a)
        (SF64mul (S754_finite false mc ec) b) = true.
Proof.
  intros C Va Vb Ha Hab.
  destruct a as [[ | ] | [ | ] | | [ | ] ma ea]; try discriminate Ha;
    destruct b as [[ | ] | [ | ] | | [ | ] mb eb]; try discriminate Hab;
    try reflexivity;
    try (apply sign_clear_above_zero, SFmul_sign_clear; reflexivity);
    try (apply sign_clear_below_inf, SFmul_sign_clear; reflexivity).
  unfold SF64mul, SFmul. simpl xorb.
  destruct (SFmul_located mc ma ec ea C) as (Q1 & F1 & L1).
  destruct (SFmul_located mc mb ec eb C) as (Q2 & F2 & L2).
  apply (binary_round_aux_mono _ _ _ _ _ _ _ _ Q1 F1 L1 Q2 F2 L2).
  pose proof (value_pos mc ec) as G.
  apply Rmult_le_compat_l; [lra | ].
  apply (valid_leb_value ma mb ea eb Va Vb Hab).
Qed.

End Operations.

(** ** The order of periods, frequencies and speeds *)

Module F64Order.

Import F64 F64Facts Spec64 Rounding F64Range Exact Pow2 Nearest Operations.
Local Open Scope float_scope.

Lemma ltb_leb (x y : float) : (x <? y) = true -> (x <=? y) = true.
Proof.
  rewrite ltb_spec, leb_spec. unfold SFltb, SFleb.
  destruct (SFcompare _ _) as [[ | | ] | ]; intros H;
    try discriminate H; reflexivity.
Qed.

Lemma nonneg_div_G (a : float) :
  (0 <=? a) = true -> (0 <=? a / G) = true.
Proof.
  intros H. rewrite leb_spec, div_spec, G_spec.
  change (Prim2SF 0) with (S754_zero false).
  destruct (leb_zero_cases a H) as [E | E].
  - rewrite E. reflexivity.
  - apply sign_clear_leb, SFdiv_sign_clear_l, E.
Qed.

Lemma nonneg_sqrt (a : float) :
  (0 <=? a) = true -> (0 <=? np_sqrt a) = true.
Proof.
  intros H. unfold np_sqrt. rewrite leb_spec, sqrt_spec.
  change (Prim2SF 0) with (S754_zero false).
  destruct (leb_zero_cases a H) as [E | E].
  - rewrite E. reflexivity.
  - apply sign_clear_leb, SFsqrt_sign_clear, E.
Qed.

(** Each of the three operations of [get_period] keeps the order. *)
Lemma div_G_mono (a b : float) :
  (0 <=? a) = true -> (a <=? b) = true -> (a / G <=? b / G) = true.
Proof.
  rewrite !leb_spec, !div_spec, G_spec.
  change (Prim2SF 0) with (S754_zero false).
  apply SFdiv_mono; apply Prim2SF_valid.
Qed.

Lemma sqrt_mono (a b : float) :
  (0 <=? a) = true -> (a <=? b) = true -> (np_sqrt a <=? np_sqrt b) = true.
Proof.
  unfold np_sqrt. rewrite !leb_spec, !sqrt_spec.
  change (Prim2SF 0) with (S754_zero false).
  apply SFsqrt_mono; apply Prim2SF_valid.
Qed.

Lemma mul_two_pi_mono (a b : float) :
  (0 <=? a) = true -> (a <=? b) = true ->
  (2.0 * np_pi * a <=? 2.0 * np_pi * b) = true.
Proof.
  rewrite !leb_spec, !(mul_spec (2.0 * np_pi)), two_pi_spec.
  change (Prim2SF 0) with (S754_zero false).
  apply SFmul_mono; try apply Prim2SF_valid. vm_compute. discriminate.
Qed.

(** [get_period] keeps the order of the lengths that are at least zero. *)
Lemma get_period_mono (a b : float) :
  (0 <=? a) = true -> (a <=? b) = true ->
  (get_period a <=? get_period b) = true.
Proof.
  intros Ha Hab. unfold get_period.
  apply mul_two_pi_mono.
  - apply nonneg_sqrt, nonneg_div_G, Ha.
  - apply sqrt_mono.
    + apply nonneg_div_G, Ha.
    + apply div_G_mono; assumption.
Qed.

(** Division of a positive finite double reverses the order of its sign-clear
    divisors. *)
Lemma SFdiv_anti (mc : positive) (ec : Z) (a b : spec_float) :
  valid_binary a = true -> valid_binary b = true ->
  sign_clear a = true -> SFleb a b = true ->
  SFleb (SF64div (S754_finite false mc ec) b)
        (SF64div (S754_finite false mc ec) a) = true.
Proof.
  intros Va Vb Ha Hab.
  destruct a as [[ | ] | [ | ] | | [ | ] ma ea]; try discriminate Ha;
    destruct b as [[ | ] | [ | ] | | [ | ] mb eb]; try discriminate Hab;
    try reflexivity;
    try (apply sign_clear_above_zero, SFdiv_sign_clear_r; reflexivity);
    try (apply sign_clear_below_inf, SFdiv_sign_clear_r; reflexivity).
  unfold SF64div, SFdiv.
  destruct (SFdiv_core_located mc mb ec eb) as (q1 & e1 & l1 & E1 & Q1 & F1 & L1).
  destruct (SFdiv_core_located mc ma ec ea) as (q2 & e2 & l2 & E2 & Q2 & F2 & L2).
  rewrite E1, E2. simpl xorb.
  apply (binary_round_aux_mono q1 e1 l1 _ q2 e2 l2 _ Q1 F1 L1 Q2 F2 L2).
  pose proof (valid_leb_value ma mb ea eb Va Vb Hab) as V.
  pose proof (value_pos mc ec) as C.
  pose proof (value_pos ma ea) as A.
  pose proof (value_pos mb eb) as B.
  unfold Rdiv. apply Rmult_le_compat_l; [lra | ].
  apply Rinv_le_contravar; assumption.
Qed.

(** [bpm] reverses the order of the lengths above zero. *)
Lemma bpm_anti (a b : float) :
  (0 <? a) = true -> (a <=? b) = true -> (bpm b <=? bpm a) = true.
Proof.
  intros Ha Hab. rewrite leb_spec, !bpm_Prim2SF.
  apply SFdiv_anti; try apply Prim2SF_valid.
  - apply get_period_sign_clear, ltb_zero_sign_clear, Ha.
  - rewrite <- leb_spec. apply get_period_mono; [ | exact Hab].
    apply ltb_leb, Ha.
Qed.

Lemma two_G_spec :
  Prim2SF (2.0 * G) = S754_finite false 5522539043063071 (-48).
Proof. vm_compute. reflexivity. Qed.

Lemma mul_two_G_mono (a b : float) :
  (0 <=? a) = true -> (a <=? b) = true ->
  (2.0 * G * a <=? 2.0 * G * b) = true.
Proof.
  rewrite !leb_spec, !(mul_spec (2.0 * G)), two_G_spec.
  change (Prim2SF 0) with (S754_zero false).
  apply SFmul_mono; try apply Prim2SF_valid. vm_compute. discriminate.
Qed.

Lemma nonneg_mul_two_G (a : float) :
  (0 <=? a) = true -> (0 <=? 2.0 * G * a) = true.
Proof.
  intros H. rewrite leb_spec, (mul_spec (2.0 * G)), two_G_spec.
  change (Prim2SF 0) with (S754_zero false).
  destruct (leb_zero_cases a H) as [E | E].
  - rewrite E. reflexivity.
  - apply sign_clear_leb, SFmul_sign_clear, E.
Qed.

(** Zero is below whatever is at or above a double above zero. *)
Lemma ltb_leb_trans_zero (y z : float) :
  (0 <? y) = true -> (y <=? z) = true -> (0 <? z) = true.
Proof.
  rewrite !ltb_spec, leb_spec. change (Prim2SF 0) with (S754_zero false).
  destruct (Prim2SF y) as [[ | ] | [ | ] | | [ | ] my ey]; simpl;
    intros H; try discriminate H;
    destruct (Prim2SF z) as [[ | ] | [ | ] | | [ | ] mz ez]; simpl;
    intros K; try discriminate K; reflexivity.
Qed.

Section Speed.
Variable np_cos : float -> float.

Lemma max_speed_mono (l1 t1 l2 t2 : float) :
  (0 <=? max_height np_cos l1 t1) = true ->
  (max_height np_cos l1 t1 <=? max_height np_cos l2 t2) = true ->
  (max_speed np_cos l1 t1 <=? max_speed np_cos l2 t2) = true.
Proof.
  intros H0 H. unfold max_speed. apply sqrt_mono.
  - apply nonneg_mul_two_G, H0.
  - apply mul_two_G_mono; assumption.
Qed.
End Speed.

Lemma get_period_positive (length : float) :
  (2.5e-323 <=? length) = true -> (0 <? get_period length) = true.
Proof.
  intros H. apply (ltb_leb_trans_zero (get_period 2.5e-323)).
  - vm_compute. reflexivity.
  - apply get_period_mono; [vm_compute; reflexivity | exact H].
Qed.



End F64Order.

(** ** Where the binary64 functions return NaN *)

Module F64Nan.

Import F64 F64Facts Spec64 Rounding F64Range.
Local Open Scope float_scope.

Lemma sign_clear_not_nan (x : float) :
  sign_clear (Prim2SF x) = true -> is_nan x = false.
Proof.
  intros H. destruct (is_nan x) eqn:N; [ | reflexivity].
  apply is_nan_spec in N. rewrite N in H. discriminate H.
Qed.

Lemma is_nan_false (x : float) :
  Prim2SF x <> S754_nan -> is_nan x = false.
Proof.
  intros H. destruct (is_nan x) eqn:N; [ | reflexivity].
  apply is_nan_spec in N. contradiction.
Qed.

(** [np.sqrt] is NaN exactly where its argument is NaN or below zero. *)
Lemma sqrt_nan_iff (x : float) :
  is_nan (np_sqrt x) = negb (0 <=? x).
Proof.
  rewrite leb_spec. change (Prim2SF 0) with (S754_zero false).
  destruct (Prim2SF x) as [[ | ] | [ | ] | | [ | ] mx ex] eqn:E; simpl;
    try (apply is_nan_spec; unfold np_sqrt; rewrite sqrt_spec, E; reflexivity);
    try (apply is_nan_false; unfold np_sqrt; rewrite sqrt_spec, E;
         discriminate).
  apply sign_clear_not_nan. unfold np_sqrt. rewrite sqrt_spec, E.
  apply SFsqrt_sign_clear. reflexivity.
Qed.

(** Period and frequency of a length that is at least zero are numbers. *)
Lemma period_bpm_numbers (length : float) :
  (0 <=? length) = true ->
  is_nan (get_period length) = false /\ is_nan (bpm length) = false.
Proof.
  intros H.
  destruct (leb_zero_cases length H) as [E | E].
  - split; destruct (is_nan _) eqn:N; try reflexivity;
      apply is_nan_spec in N.
    + rewrite get_period_Prim2SF, E in N. discriminate N.
    + rewrite bpm_Prim2SF, get_period_Prim2SF, E in N. discriminate N.
  - pose proof (get_period_sign_clear length E) as P. split.
    + apply sign_clear_not_nan, P.
    + apply sign_clear_not_nan. rewrite bpm_Prim2SF.
      apply SFdiv_sign_clear_r, P.
Qed.


End F64Nan.

(** ** Failure modes, identities and the threshold, on the code *)

Module F64Laws.

Import F64 F64Facts Spec64 Rounding F64Range F64Order F64Nan.
Local Open Scope float_scope.




(** C4, amended: for every length above zero the period is at least zero,
    and positive from the length [2.5e-323] on (it is [0.0] for the four
    smallest positive doubles); and [get_period] never decreases: for all
    [0 < a < b], [get_period a <= get_period b], neighbouring lengths such as
    [1.0] and [1.0000000000000002] having one period. *)
Theorem get_period_nonnegative_nondecreasing :
  (forall length, (0 <? length) = true -> (0 <=? get_period length) = true)
  /\ (forall length,
         (2.5e-323 <=? length) = true -> (0 <? get_period length) = true)
  /\ (forall a b,
         (0 <? a) = true -> (a <? b) = true ->
         (get_period a <=? get_period b) = true)
  /\ (forall a b,
         (0 <=? a) = true -> (a <=? b) = true ->
         (get_period a <=? get_period b) = true).
Proof.
  repeat apply conj.
  - intros length H. rewrite leb_spec.
    change (Prim2SF 0) with (S754_zero false).
    apply sign_clear_leb, get_period_sign_clear, ltb_zero_sign_clear, H.
  - intros length H. apply (ltb_leb_trans_zero (get_period 2.5e-323)).
    + vm_compute. reflexivity.
    + apply get_period_mono; [vm_compute; reflexivity | exact H].
  - intros a b Ha Hab. apply get_period_mono; apply ltb_leb; assumption.
  - intros a b Ha Hab. apply get_period_mono; assumption.
Qed.

(** The amended claim at the lengths of one and two metres. *)
Lemma get_period_nonnegative_nondecreasing_witness :
  (0 <? get_period 1) = true /\ (get_period 1 <=? get_period 2) = true.
Proof.
  destruct get_period_nonnegative_nondecreasing as (_ & P & M & _).
  split.
  - apply (P 1). vm_compute. reflexivity.
  - apply (M 1 2); vm_compute; reflexivity.
Defined.

(** C2, amended: [check_small_angle theta] is the comparison of doubles
    [theta <= np.pi / 1800.0], boundary included: true at the threshold
    [0.0017453292519943296] and at zero, false exactly for NaN and for the
    doubles greater than the threshold.  At [np.pi / 1800 + eps] it is false
    whenever the rounded sum is greater than the threshold, as for
    [eps = 2.2e-19], one spacing of the doubles there; the next double above
    the threshold is rejected. *)
Theorem check_small_angle_threshold :
  (forall theta, check_small_angle theta = (theta <=? np_pi / 1800))
  /\ np_pi / 1800 = 0.0017453292519943296
  /\ check_small_angle (np_pi / 1800) = true
  /\ check_small_angle 0 = true
  /\ (forall theta,
         (np_pi / 1800 <? theta) = true -> check_small_angle theta = false)
  /\ (forall theta,
         check_small_angle theta = false <->
         is_nan theta = true \/ (np_pi / 1800 <? theta) = true)
  /\ (forall eps,
         (np_pi / 1800 <? np_pi / 1800 + eps) = true ->
         check_small_angle (np_pi / 1800 + eps) = false)
  /\ check_small_angle (np_pi / 1800 + 2.2e-19) = false
  /\ check_small_angle (next_up (np_pi / 1800)) = false.
Proof.
  assert (A : forall theta,
             check_small_angle theta = (theta <=? np_pi / 1800)).
  { intros theta. unfold check_small_angle.
    destruct (theta <=? np_pi / 1800.0); reflexivity. }
  assert (B : forall theta,
             (np_pi / 1800 <? theta) = true ->
             check_small_angle theta = false).
  { intros theta H. rewrite A. apply ltb_not_leb, H. }
  repeat apply conj; try (vm_compute; reflexivity).
  - exact A.
  - exact B.
  - intros theta. split.
    + rewrite A, is_nan_spec, leb_spec, ltb_spec.
      unfold SFleb, SFltb.
      rewrite (SFcompare_swap (Prim2SF theta) (Prim2SF (np_pi / 1800))).
      rewrite threshold_spec.
      destruct (Prim2SF theta) as [sg | sg | | sg m e] eqn:E; auto;
        destruct (SFcompare _ _) as [[ | | ] | ] eqn:C; simpl;
        intros H; try discriminate H; auto; discriminate C.
    + intros [H | H]; [ | apply B, H].
      rewrite A, leb_spec. apply is_nan_spec in H. rewrite H. reflexivity.
  - intros eps. apply B.
Qed.

(** The amended claim at a double above the threshold. *)
Lemma check_small_angle_threshold_witness :
  check_small_angle 0.002 = false.
Proof.
  destruct check_small_angle_threshold as (_ & _ & _ & _ & H & _).
  apply (H 0.002). vm_compute. reflexivity.
Defined.

(** C7, counterexample: for the length [-1.0] the period and the frequency
    are NaN, and [bpm(-1.0) == 60 / get_period(-1.0)] is False. *)
Lemma bpm_comparison_fails_on_nan :
  (bpm (-1) =? 60 / get_period (-1)) = false.
Proof. vm_compute. reflexivity. Qed.

(** C7, amended: [bpm length] and [60 / get_period length] are the same
    double for every length, [bpm] being that division.  The comparison [==]
    of the two is True exactly when that double is not NaN: for every length
    that is at least zero, and never for a NaN length; where it is False the
    length is NaN or below zero. *)
Theorem bpm_identity :
  (forall length, bpm length = 60 / get_period length)
  /\ (forall length,
         (bpm length =? 60 / get_period length) = negb (is_nan (bpm length)))
  /\ (forall length,
         (0 <=? length) = true ->
         (bpm length =? 60 / get_period length) = true)
  /\ (forall length,
         (bpm length =? 60 / get_period length) = false ->
         is_nan length = true \/ (length <? 0) = true)
  /\ (forall length,
         is_nan length = true ->
         (bpm length =? 60 / get_period length) = false).
Proof.
  assert (A : forall length,
             (bpm length =? 60 / get_period length)
             = negb (is_nan (bpm length))).
  { intros length. apply eqb_self. }
  repeat apply conj.
  - intros length. reflexivity.
  - exact A.
  - intros length H. rewrite A.
    destruct (period_bpm_numbers length H) as [_ B]. rewrite B. reflexivity.
  - intros length H. rewrite A in H.
    destruct (float_trichotomy length) as [N | [N | N]]; auto.
    destruct (period_bpm_numbers length N) as [_ B].
    rewrite B in H. discriminate H.
  - intros length H. rewrite A, (bpm_of_nan length H). reflexivity.
Qed.

(** The amended claim at a length of two and a half metres. *)
Lemma bpm_identity_witness :
  (bpm 2.5 =? 60 / get_period 2.5) = true.
Proof.
  destruct bpm_identity as (_ & _ & H & _).
  apply (H 2.5). vm_compute. reflexivity.
Defined.

(** C3, counterexample: at the length [1.0] and the angle [np.pi], where
    the library cosine is [-1.0], the speed is NaN and
    [max_speed(1.0, np.pi) == sqrt(2 * 9.81 * max_height(1.0, np.pi))] is
    False; and the speed at [np.pi / 2], [3.4660907517887546e-08], is not
    within [1e-8] of zero. *)
Lemma max_speed_comparison_fails_on_nan :
  (max_speed cos_sample 1 np_pi
   =? np_sqrt (2 * 9.81 * max_height cos_sample 1 np_pi)) = false
  /\ (abs (max_speed cos_sample 1 (np_pi / 2) - 0) <=? 1e-8) = false.
Proof. split; vm_compute; reflexivity. Qed.

(** C3, amended: [max_speed length theta] and
    [sqrt (2 * 9.81 * max_height length theta)] are the same double, whatever
    the library cosine.  The comparison [==] of the two is True exactly when
    [2 * 9.81 * max_height length theta] is at least zero, and False where it
    is NaN or below zero.  At the length [1.0] and the angle [np.pi / 2],
    where the library cosine is [6.123233995736766e-17], the speed is
    [3.4660907517887546e-08]: zero to within [1e-7], not to within [1e-8]. *)
Theorem max_speed_identity :
  (forall (np_cos : float -> float) length theta,
      max_speed np_cos length theta
      = np_sqrt (2 * 9.81 * max_height np_cos length theta))
  /\ (forall (np_cos : float -> float) length theta,
         (max_speed np_cos length theta
          =? np_sqrt (2 * 9.81 * max_height np_cos length theta))
         = (0 <=? 2 * 9.81 * max_height np_cos length theta))
  /\ (forall np_cos : float -> float,
         np_cos (np_pi / 2) = 6.123233995736766e-17 ->
         max_speed np_cos 1 (np_pi / 2) = 3.4660907517887546e-08
         /\ (abs (max_speed np_cos 1 (np_pi / 2) - 0) <=? 1e-7) = true
         /\ (abs (max_speed np_cos 1 (np_pi / 2) - 0) <=? 1e-8) = false).
Proof.
  repeat apply conj.
  - intros np_cos length theta. reflexivity.
  - intros np_cos length theta.
    change (max_speed np_cos length theta)
      with (np_sqrt (2 * 9.81 * max_height np_cos length theta)).
    rewrite eqb_self, sqrt_nan_iff. apply negb_involutive.
  - intros np_cos H. unfold max_speed, max_height. rewrite H.
    repeat split; vm_compute; reflexivity.
Qed.

(** The amended claim with the sampled cosine. *)
Lemma max_speed_identity_witness :
  max_speed cos_sample 1 (np_pi / 2) = 3.4660907517887546e-08.
Proof.
  destruct max_speed_identity as (_ & _ & H).
  apply (H cos_sample). vm_compute. reflexivity.
Defined.

(** C8, counterexample: for the mass [1.0], the angle [np.pi] and the
    length [1.0] the speed is NaN, so is the energy, and
    [calc_energy(1.0, np.pi, 1.0) == 0.5 * 1.0 * max_speed(1.0, np.pi)**2] is
    False. *)
Lemma calc_energy_comparison_fails_on_nan :
  (calc_energy cos_sample pow_sample 1 np_pi 1
   =? 0.5 * 1 * pow_sample (max_speed cos_sample 1 np_pi) 2) = false.
Proof. vm_compute. reflexivity. Qed.

(** C8, amended: [calc_energy mass theta length] and
    [0.5 * mass * max_speed length theta ** 2] are the same double, whatever
    the library cosine and power.  The comparison [==] of the two is True
    exactly when that double is not NaN; it is NaN, and the comparison False,
    wherever [2 * 9.81 * max_height length theta] is NaN or below zero, the
    power of NaN being NaN. *)
Theorem calc_energy_identity :
  (forall (np_cos : float -> float) (np_pow : float -> float -> float)
          mass theta length,
      calc_energy np_cos np_pow mass theta length
      = 0.5 * mass * np_pow (max_speed np_cos length theta) 2)
  /\ (forall (np_cos : float -> float) (np_pow : float -> float -> float)
             mass theta length,
         (calc_energy np_cos np_pow mass theta length
          =? 0.5 * mass * np_pow (max_speed np_cos length theta) 2)
         = negb (is_nan (calc_energy np_cos np_pow mass theta length)))
  /\ (forall (np_cos : float -> float) (np_pow : float -> float -> float)
             mass theta length,
         is_nan (np_pow nan 2) = true ->
         (0 <=? 2 * 9.81 * max_height np_cos length theta) = false ->
         (calc_energy np_cos np_pow mass theta length
          =? 0.5 * mass * np_pow (max_speed np_cos length theta) 2) = false).
Proof.
  assert (A : forall (np_cos : float -> float)
                     (np_pow : float -> float -> float) mass theta length,
             (calc_energy np_cos np_pow mass theta length
              =? 0.5 * mass * np_pow (max_speed np_cos length theta) 2)
             = negb (is_nan (calc_energy np_cos np_pow mass theta length))).
  { intros. apply eqb_self. }
  repeat apply conj.
  - intros. reflexivity.
  - exact A.
  - intros np_cos np_pow mass theta length P H. rewrite A.
    assert (N : is_nan (max_speed np_cos length theta) = true).
    { unfold max_speed. rewrite sqrt_nan_iff.
      change (2.0 * G) with (2 * 9.81). rewrite H. reflexivity. }
    assert (E : max_speed np_cos length theta = nan).
    { apply Prim2SF_inj. apply is_nan_spec in N. rewrite N. reflexivity. }
    unfold calc_energy. rewrite E, (mul_nan_r _ _ P). reflexivity.
Qed.

(** The amended claim with the sampled cosine and power. *)
Lemma calc_energy_identity_witness :
  (calc_energy cos_sample pow_sample 2 np_pi 3
   =? 0.5 * 2 * pow_sample (max_speed cos_sample 3 np_pi) 2) = false.
Proof.
  destruct calc_energy_identity as (_ & _ & H).
  apply (H cos_sample pow_sample 2 np_pi 3); vm_compute; reflexivity.
Defined.

End F64Laws.

(** ** Order and range of frequency and speed, on the code *)

Module F64More.

Import F64 F64Facts Spec64 Rounding F64Range F64Order.
Local Open Scope float_scope.

(** X13: a longer pendulum never beats faster: for lengths [0 < a <= b],
    [bpm b <= bpm a]. *)
Theorem bpm_nonincreasing (a b : float) :
  (0 <? a) = true -> (a <=? b) = true -> (bpm b <=? bpm a) = true.
Proof. apply bpm_anti. Qed.

Lemma bpm_nonincreasing_witness : (bpm 2 <=? bpm 1) = true.
Proof. apply (bpm_nonincreasing 1 2); vm_compute; reflexivity. Defined.

(** X16: where [max_height] is at least zero, [max_speed] is a number that
    is at least zero, whatever the library cosine: never NaN. *)
Theorem max_speed_of_nonnegative_height
    (np_cos : float -> float) (length theta : float) :
  (0 <=? max_height np_cos length theta) = true ->
  (0 <=? max_speed np_cos length theta) = true.
Proof.
  intros H. unfold max_speed. apply nonneg_sqrt, nonneg_mul_two_G, H.
Qed.

Lemma max_speed_of_nonnegative_height_witness :
  (0 <=? max_speed cos_sample 2 0) = true.
Proof.
  apply (max_speed_of_nonnegative_height cos_sample 2 0).
  vm_compute. reflexivity.
Defined.



(** X18: [max_speed] never decreases with [max_height]: a height that is at
    least zero and at most another gives a speed at most the other's,
    whatever lengths and angles the heights come from. *)
Theorem max_speed_nondecreasing_in_height
    (np_cos : float -> float) (l1 t1 l2 t2 : float) :
  (0 <=? max_height np_cos l1 t1) = true ->
  (max_height np_cos l1 t1 <=? max_height np_cos l2 t2) = true ->
  (max_speed np_cos l1 t1 <=? max_speed np_cos l2 t2) = true.
Proof. apply max_speed_mono. Qed.

Lemma max_speed_nondecreasing_in_height_witness :
  (max_speed cos_sample 1 (np_pi / 2) <=? max_speed cos_sample 1 0) = true.
Proof.
  apply (max_speed_nondecreasing_in_height cos_sample 1 (np_pi / 2) 1 0);
    vm_compute; reflexivity.
Defined.

End F64More.
